(** * Volcanic: the volcano status aggregation and caching layer

    A shallow embedding of
      - [src/lib/gvp-eruptions.ts]  (eruption feed cache),
      - [src/lib/types.ts]          (Volcano, VolcanoStatus),
      - [src/app/api/volcanoes/route.ts]          (catalog aggregation, GET),
      - [src/app/api/volcanoes/refresh/route.ts]  (POST, cache invalidation),
    followed by the properties of the specification that concern them.

    Conventions of the embedding
      - module-level [let] variables are the fields of [World];
      - [Date.now()] readings and the outcome of each network request are
        inputs of the handler that performs them;
      - every [fetch] is recorded in [requests], so that "issues a network
        request" is observable;
      - a JavaScript exception is the [inl] of a result; [try]/[catch] is
        [try_catch]; assignments made before a throw persist;
      - JavaScript numbers that are identifiers, years, elevations and
        millisecond timestamps are integers ([Z]); coordinates are
        rationals ([Q]) and are only carried around. *)

From Stdlib Require Import ZArith QArith Sorted Permutation.
From stdpp Require Import base tactics option list strings pretty gmap.

Local Open Scope string_scope.
Local Open Scope Z_scope.

(* ===================================================================== *)
(** ** JavaScript runtime notions used by the sources *)
(* ===================================================================== *)

(** [String(n)] for an integral number. *)
Definition String_of (n : Z) : string := pretty n.

(** Truthiness of a string: only the empty string is falsy. *)
Definition truthy (s : string) : bool := negb (String.eqb s "").

(** [a || b] on strings. *)
Definition or_else (a b : string) : string := if truthy a then a else b.

(** [Map<string, V>]: entries are kept in insertion order, [set] on a
    present key overwrites in place. *)
Module Map.
Definition t (V : Type) : Type := list (string * V).

Section Ops.
Context {V : Type}.

Definition empty : t V := [].

Fixpoint get (m : t V) (k : string) : option V :=
  match m with
  | [] => None
  | (k', v) :: m' => if String.eqb k' k then Some v else get m' k
  end.

Definition has (m : t V) (k : string) : bool :=
  match get m k with Some _ => true | None => false end.

Fixpoint set (m : t V) (k : string) (v : V) : t V :=
  match m with
  | [] => [(k, v)]
  | (k', v') :: m' =>
      if String.eqb k' k then (k, v) :: m' else (k', v') :: set m' k v
  end.

Definition size (m : t V) : nat := length m.
Definition keys (m : t V) : list string := m.*1.
Definition values (m : t V) : list V := m.*2.

(** Number of entries stored under key [k]. *)
Definition count (m : t V) (k : string) : nat :=
  length (List.filter (λ e, String.eqb e.1 k) m).
End Ops.
End Map.

(** [Array.prototype.sort(compareFn)]: a stable sort; [compareFn a b > 0]
    means that [a] goes after [b]. For a consistent comparator the result
    of a stable sort is unique, so it is given here by stable insertion. *)
Section ArraySort.
Context {A : Type} (compareFn : A → A → Z).

Fixpoint sort_insert (x : A) (l : list A) : list A :=
  match l with
  | [] => [x]
  | y :: l' =>
      if compareFn x y <=? 0 then x :: y :: l' else y :: sort_insert x l'
  end.

Fixpoint Array_sort (l : list A) : list A :=
  match l with
  | [] => []
  | x :: l' => sort_insert x (Array_sort l')
  end.
End ArraySort.

(** Exceptions that the modelled code can raise. *)
Inductive Exn : Type :=
  | NetworkFailure                (* fetch() rejects *)
  | SyntaxError                   (* response.json() rejects *)
  | TypeError                     (* property access on undefined, non-iterable *)
  | Error (message : string).     (* throw new Error(...) *)

(** What the network gives back for one request. *)
Inductive Body (A : Type) : Type :=
  | NotJson
  | Json (payload : A).
Arguments NotJson {A}.
Arguments Json {A} payload.

Inductive FetchOutcome (A : Type) : Type :=
  | Rejected
  | Responded (ok : bool) (status : Z) (body : Body A).
Arguments Rejected {A}.
Arguments Responded {A} ok status body.

(* ===================================================================== *)
(** ** src/lib/types.ts *)
(* ===================================================================== *)

Inductive VolcanoStatus : Type :=
  | normal | advisory | watch | warning | erupting.

Global Instance VolcanoStatus_eq_dec : EqDecision VolcanoStatus.
Proof. solve_decision. Defined.

Module Volcano.
Record t : Type := mk {
  id : string;
  name : string;
  country : string;
  region : string;
  latitude : Q;
  longitude : Q;
  elevation : Z;
  type : string;
  status : VolcanoStatus;
  lastEruption : option string;
  vei : option Z;
  description : option string;
  tectonicSetting : option string;
  rockTypes : option (list string)
}.
End Volcano.

Module VolcanoApiResponse.
Record t : Type := mk {
  volcanoes : list Volcano.t;
  lastUpdated : Z;            (* the instant passed to [new Date(..)] *)
  totalCount : Z
}.
End VolcanoApiResponse.

(* ===================================================================== *)
(** ** src/lib/gvp-eruptions.ts: data *)
(* ===================================================================== *)

Definition GVP_ERUPTIONS_URL : string :=
  "https://webservices.volcano.si.edu/geoserver/GVP-VOTW/ows?service=WFS&version=1.0.0&request=GetFeature&typeName=GVP-VOTW:E3WebApp_Eruptions1960&outputFormat=application/json".

Module GVPEruption.
Record t : Type := mk {
  VolcanoNumber : Z;
  VolcanoName : string;
  ContinuingEruption : string;
  StartDate : option string;
  StartDateYear : Z;
  ExplosivityIndexMax : option Z
}.
End GVPEruption.

(** One element of [features]; [properties] is [None] when the record
    carries none (reading a field of it then throws). *)
Module EruptionFeature.
Record t : Type := mk { properties : option GVPEruption.t }.
End EruptionFeature.

(** [features] is [None] when the payload has no iterable [features]. *)
Module GVPEruptionsResponse.
Record t : Type := mk { features : option (list EruptionFeature.t) }.
End GVPEruptionsResponse.

Module ActiveEruption.
Record t : Type := mk {
  volcanoId : string;
  volcanoName : string;
  startDate : option string;
  vei : option Z
}.
End ActiveEruption.

Module EruptionCache.
Record t : Type := mk {
  eruptions : Map.t ActiveEruption.t;
  timestamp : Z
}.
End EruptionCache.

Definition ERUPTION_CACHE_DURATION : Z := 30 * 60 * 1000.

(* ===================================================================== *)
(** ** src/app/api/volcanoes/route.ts: data *)
(* ===================================================================== *)

Module CachedData.
Record t : Type := mk {
  volcanoes : list Volcano.t;
  timestamp : Z
}.
End CachedData.

Definition CACHE_DURATION : Z := 6 * 60 * 60 * 1000.

Definition GVP_GEOJSON_URL : string :=
  "https://webservices.volcano.si.edu/geoserver/GVP-VOTW/ows?service=WFS&version=1.0.0&request=GetFeature&typeName=GVP-VOTW:Smithsonian_VOTW_Holocene_Volcanoes&outputFormat=application/json".

Definition WARNING_VOLCANO_IDS : gset string :=
  {[ "263250"; "341090"; "342090"; "263340" ]}.

Definition WATCH_VOLCANO_IDS : gset string :=
  {[ "352010"; "212040"; "357120"; "282110"; "311070"; "264020"; "263310" ]}.

Definition ADVISORY_VOLCANO_IDS : gset string :=
  {[ "264140"; "383010"; "223020"; "221080"; "264020"; "273070";
     "211010"; "311060"; "241040" ]}.

(** [Set.prototype.has]. *)
Definition Set_has (s : gset string) (x : string) : bool := bool_decide (x ∈ s).

Module Geometry.
(** [coordinates] is [lon, lat]; [None] when absent. *)
Record t : Type := mk { coordinates : option (Q * Q) }.
End Geometry.

Module Properties.
(** [Volcano_Name] is [None] when absent; the other fields have the
    types the interface [GVPFeature] declares. *)
Record t : Type := mk {
  Volcano_Number : Z;
  Volcano_Name : option string;
  Country : string;
  Region : string;
  Subregion : string;
  Primary_Volcano_Type : string;
  Elevation : Z;
  Last_Eruption_Year : option Z;
  Tectonic_Setting : string;
  Major_Rock_Type : string
}.
End Properties.

Module GVPFeature.
Record t : Type := mk {
  geometry : option Geometry.t;
  properties : option Properties.t
}.
End GVPFeature.

(** [features] is [None] when the payload has no [features] array, which
    includes a payload that is not a collection at all. *)
Module GVPGeoJSON.
Record t : Type := mk { features : option (list GVPFeature.t) }.
End GVPGeoJSON.

(** A [NextResponse.json(body, { status })]. *)
Module NextResponse.
Record t (A : Type) : Type := mk { status : Z; body : A }.
Arguments mk {A} status body.
Arguments status {A} _.
Arguments body {A} _.
End NextResponse.

(* ===================================================================== *)
(** ** Process state and the monad of handlers *)
(* ===================================================================== *)

Record World : Type := mkWorld {
  eruptionCache : option EruptionCache.t;     (* gvp-eruptions.ts *)
  cachedData : option CachedData.t;           (* volcanoes/route.ts *)
  activeEruptions : Map.t ActiveEruption.t;   (* volcanoes/route.ts *)
  requests : list string                      (* URLs fetched so far, oldest first *)
}.

Definition initialWorld : World :=
  {| eruptionCache := None; cachedData := None;
     activeEruptions := Map.empty; requests := [] |}.

Definition M (A : Type) : Type := World → (Exn + A) * World.

Definition ret {A} (a : A) : M A := λ w, (inr a, w).

Definition bind {A B} (m : M A) (k : A → M B) : M B :=
  λ w, match m w with
       | (inl e, w') => (inl e, w')
       | (inr a, w') => k a w'
       end.

Definition throw {A} (e : Exn) : M A := λ w, (inl e, w).

Definition try_catch {A} (body : M A) (handler : Exn → M A) : M A :=
  λ w, match body w with
       | (inl e, w') => handler e w'
       | (inr a, w') => (inr a, w')
       end.

Definition liftR {A} (r : Exn + A) : M A := λ w, (r, w).

Declare Scope js_scope.
Delimit Scope js_scope with js.
Notation "'let!' x ':=' m 'in' k" := (bind m (λ x, k))
  (at level 10, x pattern, m at level 100, k at level 200) : js_scope.
Notation "m ';;' k" := (bind m (λ _, k))
  (at level 100, k at level 200, right associativity) : js_scope.

Definition read_eruptionCache : M (option EruptionCache.t) :=
  λ w, (inr (eruptionCache w), w).
Definition write_eruptionCache (c : option EruptionCache.t) : M unit :=
  λ w, (inr tt, {| eruptionCache := c; cachedData := cachedData w;
                   activeEruptions := activeEruptions w; requests := requests w |}).
Definition read_cachedData : M (option CachedData.t) :=
  λ w, (inr (cachedData w), w).
Definition write_cachedData (c : option CachedData.t) : M unit :=
  λ w, (inr tt, {| eruptionCache := eruptionCache w; cachedData := c;
                   activeEruptions := activeEruptions w; requests := requests w |}).
Definition write_activeEruptions (m : Map.t ActiveEruption.t) : M unit :=
  λ w, (inr tt, {| eruptionCache := eruptionCache w; cachedData := cachedData w;
                   activeEruptions := m; requests := requests w |}).

(** [await fetch(url)] followed by the test of [response.ok] and
    [await response.json()] are three steps of the sources; the request is
    logged by the first. *)
Definition fetch {A} (url : string) (outcome : FetchOutcome A)
  : M (bool * Z * Body A) :=
  λ w, let w' := {| eruptionCache := eruptionCache w; cachedData := cachedData w;
                    activeEruptions := activeEruptions w;
                    requests := requests w ++ [url] |} in
       match outcome with
       | Rejected => (inl NetworkFailure, w')
       | Responded ok status body => (inr (ok, status, body), w')
       end.

Definition json {A} (body : Body A) : M A :=
  match body with
  | NotJson => throw SyntaxError
  | Json payload => ret payload
  end.

Local Open Scope js_scope.

(* ===================================================================== *)
(** ** src/lib/gvp-eruptions.ts: operations *)
(* ===================================================================== *)

(** The body of the [for (const feature of data.features)] loop, run over
    the remaining features with the map built so far. *)
Fixpoint collectEruptions (features : list EruptionFeature.t)
    (activeEruptions : Map.t ActiveEruption.t)
  : Exn + Map.t ActiveEruption.t :=
  match features with
  | [] => inr activeEruptions
  | feature :: rest =>
      match EruptionFeature.properties feature with
      | None => inl TypeError
      | Some props =>
          if String.eqb (GVPEruption.ContinuingEruption props) "True" then
            let volcanoId := String_of (GVPEruption.VolcanoNumber props) in
            if negb (Map.has activeEruptions volcanoId) then
              collectEruptions rest
                (Map.set activeEruptions volcanoId
                   {| ActiveEruption.volcanoId := volcanoId;
                      ActiveEruption.volcanoName := GVPEruption.VolcanoName props;
                      ActiveEruption.startDate := GVPEruption.StartDate props;
                      ActiveEruption.vei := GVPEruption.ExplosivityIndexMax props |})
            else collectEruptions rest activeEruptions
          else collectEruptions rest activeEruptions
      end
  end.

(** [eruptionCache && now - eruptionCache.timestamp < ERUPTION_CACHE_DURATION] *)
Definition eruptionCache_fresh (now : Z) (cache : option EruptionCache.t)
  : option EruptionCache.t :=
  match cache with
  | Some c =>
      if now - EruptionCache.timestamp c <? ERUPTION_CACHE_DURATION
      then Some c else None
  | None => None
  end.

Definition fetchActiveEruptions (now : Z)
    (feed : FetchOutcome GVPEruptionsResponse.t)
  : M (Map.t ActiveEruption.t) :=
  try_catch
    (let! cache := read_eruptionCache in
     match eruptionCache_fresh now cache with
     | Some c => ret (EruptionCache.eruptions c)
     | None =>
         let! (ok, status, body) := fetch GVP_ERUPTIONS_URL feed in
         if negb ok then
           throw (Error ("GVP Eruptions API returned " +:+ String_of status))
         else
           let! data := json body in
           match GVPEruptionsResponse.features data with
           | None => throw TypeError
           | Some features =>
               let! activeEruptions := liftR (collectEruptions features Map.empty) in
               write_eruptionCache
                 (Some {| EruptionCache.eruptions := activeEruptions;
                          EruptionCache.timestamp := now |}) ;;
               ret activeEruptions
           end
     end)
    (λ error,
       let! cache := read_eruptionCache in
       match cache with
       | Some c => ret (EruptionCache.eruptions c)
       | None => ret Map.empty
       end).

Definition invalidateEruptionCache : M unit := write_eruptionCache None.

(* ===================================================================== *)
(** ** src/app/api/volcanoes/route.ts: operations *)
(* ===================================================================== *)

(** [determineStatus] reads the module variable [activeEruptions]; it is
    passed here by its caller. *)
Definition determineStatus (activeEruptions : Map.t ActiveEruption.t)
    (volcanoId : string) : VolcanoStatus :=
  if Map.has activeEruptions volcanoId then erupting
  else if Set_has WARNING_VOLCANO_IDS volcanoId then warning
  else if Set_has WATCH_VOLCANO_IDS volcanoId then watch
  else if Set_has ADVISORY_VOLCANO_IDS volcanoId then advisory
  else normal.

(** Reading through an absent [geometry], [coordinates] or [properties]
    throws. A feature without [Volcano_Name] would give a record whose
    [name] is undefined, which is not a [Volcano]; the only caller filters
    such features out beforehand. *)
Definition parseGeoJSONFeature (activeEruptions : Map.t ActiveEruption.t)
    (feature : GVPFeature.t) : Exn + Volcano.t :=
  match GVPFeature.properties feature, GVPFeature.geometry feature with
  | Some props, Some geometry =>
      match Geometry.coordinates geometry, Properties.Volcano_Name props with
      | Some (lon, lat), Some volcanoName =>
          let volcanoId := String_of (Properties.Volcano_Number props) in
          inr {| Volcano.id := volcanoId;
                 Volcano.name := volcanoName;
                 Volcano.country := or_else (Properties.Country props) "Unknown";
                 Volcano.region :=
                   or_else (or_else (Properties.Subregion props)
                                    (Properties.Region props)) "Unknown";
                 Volcano.latitude := lat;
                 Volcano.longitude := lon;
                 (* props.Elevation || 0: on numbers, 0 is the falsy one *)
                 Volcano.elevation := Properties.Elevation props;
                 Volcano.type :=
                   or_else (Properties.Primary_Volcano_Type props) "Unknown";
                 Volcano.status := determineStatus activeEruptions volcanoId;
                 Volcano.lastEruption :=
                   match Properties.Last_Eruption_Year props with
                   | Some year => if year =? 0 then None else Some (String_of year)
                   | None => None
                   end;
                 Volcano.vei := None;
                 Volcano.description :=
                   if truthy (Properties.Tectonic_Setting props) then
                     Some (Properties.Primary_Volcano_Type props +:+ " volcano in "
                           +:+ Properties.Tectonic_Setting props +:+ " setting.")
                   else None;
                 Volcano.tectonicSetting :=
                   if truthy (Properties.Tectonic_Setting props)
                   then Some (Properties.Tectonic_Setting props) else None;
                 Volcano.rockTypes :=
                   if truthy (Properties.Major_Rock_Type props)
                   then Some [Properties.Major_Rock_Type props] else None |}
      | _, _ => inl TypeError
      end
  | _, _ => inl TypeError
  end.

(** The predicate of [geojson.features.filter(...)]. *)
Definition hasRequiredFields (f : GVPFeature.t) : bool :=
  match GVPFeature.geometry f with
  | None => false
  | Some geometry =>
      match Geometry.coordinates geometry with
      | None => false
      | Some _ =>
          match GVPFeature.properties f with
          | None => false
          | Some props =>
              match Properties.Volcano_Name props with
              | None => false
              | Some volcanoName => truthy volcanoName
              end
          end
      end
  end.

(** [Array.prototype.map] with a callback that may throw. *)
Fixpoint Array_map {A B} (f : A → Exn + B) (l : list A) : Exn + list B :=
  match l with
  | [] => inr []
  | x :: l' =>
      match f x with
      | inl e => inl e
      | inr y =>
          match Array_map f l' with
          | inl e => inl e
          | inr ys => inr (y :: ys)
          end
      end
  end.

Definition statusPriority (s : VolcanoStatus) : Z :=
  match s with
  | erupting => 0
  | warning => 1
  | watch => 2
  | advisory => 3
  | normal => 4
  end.

Definition getFallbackVolcanoData : list Volcano.t :=
  [ {| Volcano.id := "300150"; Volcano.name := "Kilauea";
       Volcano.country := "United States"; Volcano.region := "Hawaiian Islands";
       Volcano.latitude := 19.421%Q; Volcano.longitude := (-155.287)%Q;
       Volcano.elevation := 1222; Volcano.type := "Shield";
       Volcano.status := erupting; Volcano.lastEruption := Some "2024";
       Volcano.vei := Some 1; Volcano.description := None;
       Volcano.tectonicSetting := None; Volcano.rockTypes := None |};
    {| Volcano.id := "211040"; Volcano.name := "Stromboli";
       Volcano.country := "Italy"; Volcano.region := "Aeolian Islands";
       Volcano.latitude := 38.789%Q; Volcano.longitude := 15.213%Q;
       Volcano.elevation := 924; Volcano.type := "Stratovolcano";
       Volcano.status := erupting; Volcano.lastEruption := Some "2024";
       Volcano.vei := Some 2; Volcano.description := None;
       Volcano.tectonicSetting := None; Volcano.rockTypes := None |};
    {| Volcano.id := "211060"; Volcano.name := "Etna";
       Volcano.country := "Italy"; Volcano.region := "Sicily";
       Volcano.latitude := 37.748%Q; Volcano.longitude := 14.999%Q;
       Volcano.elevation := 3357; Volcano.type := "Stratovolcano";
       Volcano.status := erupting; Volcano.lastEruption := Some "2024";
       Volcano.vei := Some 2; Volcano.description := None;
       Volcano.tectonicSetting := None; Volcano.rockTypes := None |};
    {| Volcano.id := "282080"; Volcano.name := "Sakurajima";
       Volcano.country := "Japan"; Volcano.region := "Kyushu";
       Volcano.latitude := 31.585%Q; Volcano.longitude := 130.657%Q;
       Volcano.elevation := 1117; Volcano.type := "Stratovolcano";
       Volcano.status := erupting; Volcano.lastEruption := Some "2024";
       Volcano.vei := Some 2; Volcano.description := None;
       Volcano.tectonicSetting := None; Volcano.rockTypes := None |};
    {| Volcano.id := "263300"; Volcano.name := "Semeru";
       Volcano.country := "Indonesia"; Volcano.region := "Java";
       Volcano.latitude := (-8.108)%Q; Volcano.longitude := 112.922%Q;
       Volcano.elevation := 3676; Volcano.type := "Stratovolcano";
       Volcano.status := erupting; Volcano.lastEruption := Some "2024";
       Volcano.vei := Some 2; Volcano.description := None;
       Volcano.tectonicSetting := None; Volcano.rockTypes := None |} ].

(** [cachedData && now - cachedData.timestamp < CACHE_DURATION] *)
Definition cachedData_fresh (now : Z) (cache : option CachedData.t)
  : option CachedData.t :=
  match cache with
  | Some c =>
      if now - CachedData.timestamp c <? CACHE_DURATION then Some c else None
  | None => None
  end.

Module RefreshResponse.
Record t : Type := mk {
  success : bool;
  message : string;
  timestamp : option Z
}.
End RefreshResponse.

Section Route.
(** [String.prototype.localeCompare] depends on the collation of the
    host; it is a parameter of the embedding. *)
Variable localeCompare : string → string → Z.

(** The comparator handed to [volcanoes.sort]. *)
Definition compareVolcanoes (a b : Volcano.t) : Z :=
  let priorityDiff :=
    statusPriority (Volcano.status a) - statusPriority (Volcano.status b) in
  if negb (priorityDiff =? 0) then priorityDiff
  else localeCompare (Volcano.name a) (Volcano.name b).

Definition fetchVolcanoData (nowEruptions : Z)
    (eruptionsFeed : FetchOutcome GVPEruptionsResponse.t)
    (catalogFeed : FetchOutcome GVPGeoJSON.t)
  : M (list Volcano.t) :=
  try_catch
    (let! fetched := fetchActiveEruptions nowEruptions eruptionsFeed in
     write_activeEruptions fetched ;;
     let! (ok, status, body) := fetch GVP_GEOJSON_URL catalogFeed in
     if negb ok then
       throw (Error ("GVP API returned " +:+ String_of status))
     else
       let! geojson := json body in
       match GVPGeoJSON.features geojson with
       | None => throw (Error "Invalid GeoJSON response")
       | Some features =>
           let! volcanoes :=
             liftR (Array_map (parseGeoJSONFeature fetched)
                      (List.filter hasRequiredFields features)) in
           ret (Array_sort compareVolcanoes volcanoes)
       end)
    (λ error, ret getFallbackVolcanoData).

(** [now] is the reading of [Date.now()] in [GET], [nowEruptions] the one
    in [fetchActiveEruptions], [nowCatch] the [new Date()] of the [catch]
    block. *)
Definition GET (now nowEruptions nowCatch : Z)
    (eruptionsFeed : FetchOutcome GVPEruptionsResponse.t)
    (catalogFeed : FetchOutcome GVPGeoJSON.t)
  : M (NextResponse.t VolcanoApiResponse.t) :=
  try_catch
    (let! cache := read_cachedData in
     match cachedData_fresh now cache with
     | Some c =>
         ret (NextResponse.mk 200
                {| VolcanoApiResponse.volcanoes := CachedData.volcanoes c;
                   VolcanoApiResponse.lastUpdated := CachedData.timestamp c;
                   VolcanoApiResponse.totalCount :=
                     Z.of_nat (length (CachedData.volcanoes c)) |})
     | None =>
         let! volcanoes :=
           fetchVolcanoData nowEruptions eruptionsFeed catalogFeed in
         write_cachedData
           (Some {| CachedData.volcanoes := volcanoes;
                    CachedData.timestamp := now |}) ;;
         (* statusCounts is computed for console.log only *)
         ret (NextResponse.mk 200
                {| VolcanoApiResponse.volcanoes := volcanoes;
                   VolcanoApiResponse.lastUpdated := now;
                   VolcanoApiResponse.totalCount := Z.of_nat (length volcanoes) |})
     end)
    (λ error,
       ret (NextResponse.mk 500
              {| VolcanoApiResponse.volcanoes := getFallbackVolcanoData;
                 VolcanoApiResponse.lastUpdated := nowCatch;
                 VolcanoApiResponse.totalCount := 5 |})).
End Route.

(* ===================================================================== *)
(** ** src/app/api/volcanoes/refresh/route.ts *)
(* ===================================================================== *)

Definition POST (now : Z) : M (NextResponse.t RefreshResponse.t) :=
  try_catch
    (invalidateEruptionCache ;;
     ret (NextResponse.mk 200
            {| RefreshResponse.success := true;
               RefreshResponse.message :=
                 "Cache invalidated. Fresh data will be fetched on next request.";
               RefreshResponse.timestamp := Some now |}))
    (λ error,
       ret (NextResponse.mk 500
              {| RefreshResponse.success := false;
                 RefreshResponse.message := "Failed to invalidate cache";
                 RefreshResponse.timestamp := None |})).

(* ===================================================================== *)
(** ** Notions used in the statements *)
(* ===================================================================== *)

(** A feed record is flagged as continuing. *)
Definition continuing (r : GVPEruption.t) : bool :=
  String.eqb (GVPEruption.ContinuingEruption r) "True".

(** The [ActiveEruption] that stands for a feed record. *)
Definition toActiveEruption (r : GVPEruption.t) : ActiveEruption.t :=
  {| ActiveEruption.volcanoId := String_of (GVPEruption.VolcanoNumber r);
     ActiveEruption.volcanoName := GVPEruption.VolcanoName r;
     ActiveEruption.startDate := GVPEruption.StartDate r;
     ActiveEruption.vei := GVPEruption.ExplosivityIndexMax r |}.

(** The first record, in delivery order, that is continuing and belongs to
    the volcano [volcanoId]. *)
Definition firstContinuing (volcanoId : string) (records : list GVPEruption.t)
  : option GVPEruption.t :=
  List.find
    (λ r, continuing r
          && String.eqb (String_of (GVPEruption.VolcanoNumber r)) volcanoId)
    records.

Definition featureOf (r : GVPEruption.t) : EruptionFeature.t :=
  {| EruptionFeature.properties := Some r |}.

(** Reading a field of the properties of such a feature throws. *)
Definition lacksProperties (f : EruptionFeature.t) : bool :=
  match EruptionFeature.properties f with None => true | Some _ => false end.

(** The eruption request fails: network error, non-success status, or
    malformed payload (not JSON, no [features], a feature without
    [properties]). *)
Definition eruptionsFeedFails (feed : FetchOutcome GVPEruptionsResponse.t) : bool :=
  match feed with
  | Rejected => true
  | Responded ok _ body =>
      negb ok ||
      match body with
      | NotJson => true
      | Json data =>
          match GVPEruptionsResponse.features data with
          | None => true
          | Some features => existsb lacksProperties features
          end
      end
  end.

(** The last snapshot held by the cache, whatever its age, or the empty
    map when the cache holds none. *)
Definition lastKnownEruptions (cache : option EruptionCache.t)
  : Map.t ActiveEruption.t :=
  match cache with
  | Some c => EruptionCache.eruptions c
  | None => Map.empty
  end.

(** The catalog request fails: network error, non-ok status, or a payload
    that is not a feature collection. *)
Definition catalogFeedFails (feed : FetchOutcome GVPGeoJSON.t) : bool :=
  match feed with
  | Rejected => true
  | Responded ok _ body =>
      negb ok ||
      match body with
      | NotJson => true
      | Json geojson =>
          match GVPGeoJSON.features geojson with
          | None => true
          | Some _ => false
          end
      end
  end.

(** A catalog response that carries the feature array [features]. *)
Definition catalogOf (status : Z) (features : list GVPFeature.t)
  : FetchOutcome GVPGeoJSON.t :=
  Responded true status (Json {| GVPGeoJSON.features := Some features |}).

(** A catalog feature lacks geometry, coordinates, properties or a name. *)
Definition missingRequired (f : GVPFeature.t) : Prop :=
  GVPFeature.geometry f = None
  ∨ (∃ g, GVPFeature.geometry f = Some g ∧ Geometry.coordinates g = None)
  ∨ GVPFeature.properties f = None
  ∨ (∃ p, GVPFeature.properties f = Some p ∧ Properties.Volcano_Name p = None).

(** A catalog feature has them all, the name being a non-empty string. *)
Definition wellFormed (f : GVPFeature.t) : Prop :=
  ∃ g c p n,
    GVPFeature.geometry f = Some g ∧ Geometry.coordinates g = Some c
    ∧ GVPFeature.properties f = Some p ∧ Properties.Volcano_Name p = Some n
    ∧ n ≠ "".

(** The identifiers of the features that the aggregation retains. *)
Definition retainedNumbers (features : list GVPFeature.t) : list Z :=
  omap (λ f, Properties.Volcano_Number <$> GVPFeature.properties f)
       (List.filter hasRequiredFields features).

(** The order of the specification on (statusPriority, name) pairs, for a
    given comparison of names. *)
Definition volcanoLe (localeCompare : string → string → Z) (a b : Volcano.t)
  : Prop :=
  statusPriority (Volcano.status a) < statusPriority (Volcano.status b)
  ∨ (statusPriority (Volcano.status a) = statusPriority (Volcano.status b)
     ∧ localeCompare (Volcano.name a) (Volcano.name b) ≤ 0).

(** A collation to run the definitions with: code unit order. *)
Definition codeUnitCompare (a b : string) : Z :=
  match String.compare a b with
  | Lt => -1
  | Eq => 0
  | Gt => 1
  end.

(** Sample inputs for running the definitions. *)
Definition sampleFeature (number : Z) (name : string) : GVPFeature.t :=
  {| GVPFeature.geometry :=
       Some {| Geometry.coordinates := Some (110.446%Q, (-7.54)%Q) |};
     GVPFeature.properties :=
       Some {| Properties.Volcano_Number := number;
               Properties.Volcano_Name := Some name;
               Properties.Country := "Indonesia";
               Properties.Region := "";
               Properties.Subregion := "Java";
               Properties.Primary_Volcano_Type := "Stratovolcano";
               Properties.Elevation := 2910;
               Properties.Last_Eruption_Year := Some 2023;
               Properties.Tectonic_Setting := "Subduction zone";
               Properties.Major_Rock_Type := "Andesite" |} |}.

Definition sampleFeatureNoGeometry : GVPFeature.t :=
  {| GVPFeature.geometry := None;
     GVPFeature.properties := GVPFeature.properties (sampleFeature 1 "Nameless") |}.

Definition sampleEruption (number : Z) (name : string) : GVPEruption.t :=
  {| GVPEruption.VolcanoNumber := number;
     GVPEruption.VolcanoName := name;
     GVPEruption.ContinuingEruption := "True";
     GVPEruption.StartDate := Some "2024-12-23";
     GVPEruption.StartDateYear := 2024;
     GVPEruption.ExplosivityIndexMax := Some 3 |}.

Definition eruptionsOf (records : list GVPEruption.t)
  : FetchOutcome GVPEruptionsResponse.t :=
  Responded true 200
    (Json {| GVPEruptionsResponse.features := Some (featureOf <$> records) |}).

(** A catalog of one volcano, cached at instant 0. *)
Definition sampleCachedWorld : World :=
  {| eruptionCache := None;
     cachedData :=
       Some {| CachedData.volcanoes :=
                 [ {| Volcano.id := "263250"; Volcano.name := "Merapi";
                      Volcano.country := "Indonesia"; Volcano.region := "Java";
                      Volcano.latitude := (-7.54)%Q; Volcano.longitude := 110.446%Q;
                      Volcano.elevation := 2910; Volcano.type := "Stratovolcano";
                      Volcano.status := warning; Volcano.lastEruption := Some "2023";
                      Volcano.vei := None; Volcano.description := None;
                      Volcano.tectonicSetting := None; Volcano.rockTypes := None |} ];
               CachedData.timestamp := 0 |};
     activeEruptions := Map.empty;
     requests := [] |}.

(* ===================================================================== *)
(** ** src/lib/gvp-eruptions.ts: the point queries *)
(* ===================================================================== *)

Definition isVolcanoErupting (now : Z)
    (feed : FetchOutcome GVPEruptionsResponse.t) (volcanoId : string) : M bool :=
  let! eruptions := fetchActiveEruptions now feed in
  ret (Map.has eruptions volcanoId).

(** [eruptions.get(volcanoId) || null]: an entry is an object, hence
    truthy; [None] is the [null]. *)
Definition getEruptionInfo (now : Z)
    (feed : FetchOutcome GVPEruptionsResponse.t) (volcanoId : string)
  : M (option ActiveEruption.t) :=
  let! eruptions := fetchActiveEruptions now feed in
  ret (Map.get eruptions volcanoId).

(* ===================================================================== *)
(** ** The eruption status route (GET handler over fetchActiveEruptions) *)
(* ===================================================================== *)

Module EruptingVolcano.
Record t : Type := mk {
  id : string;
  name : string;
  startDate : option string
}.
End EruptingVolcano.

Module StatusResponse.
Record t : Type := mk {
  eruptingCount : Z;
  eruptingVolcanoes : list EruptingVolcano.t;
  dataSource : string;
  refreshInterval : string;
  timestamp : Z
}.
End StatusResponse.

(** The two shapes of body the handler sends. *)
Inductive StatusBody : Type :=
  | StatusReport (report : StatusResponse.t)
  | StatusFailure (error : string).

Module StatusRoute.
(** [nowEruptions] is the reading of [Date.now()] in
    [fetchActiveEruptions], [nowResponse] the [new Date()] of the body. *)
Definition GET (nowEruptions nowResponse : Z)
    (feed : FetchOutcome GVPEruptionsResponse.t)
  : M (NextResponse.t StatusBody) :=
  try_catch
    (let! eruptions := fetchActiveEruptions nowEruptions feed in
     let eruptingVolcanoes :=
       (λ e, {| EruptingVolcano.id := ActiveEruption.volcanoId e;
                EruptingVolcano.name := ActiveEruption.volcanoName e;
                EruptingVolcano.startDate := ActiveEruption.startDate e |})
         <$> Map.values eruptions in
     ret (NextResponse.mk 200
            (StatusReport
               {| StatusResponse.eruptingCount := Z.of_nat (Map.size eruptions);
                  StatusResponse.eruptingVolcanoes := eruptingVolcanoes;
                  StatusResponse.dataSource :=
                    "Smithsonian GVP E3WebApp_Eruptions1960";
                  StatusResponse.refreshInterval := "30 minutes";
                  StatusResponse.timestamp := nowResponse |})))
    (λ error, ret (NextResponse.mk 500 (StatusFailure "Failed to get status"))).
End StatusRoute.

(* ===================================================================== *)
(** ** Status counts (volcanoes/route.ts, components/FilterControls.tsx) *)
(* ===================================================================== *)

(** The string that a status is at run time. *)
Definition statusName (s : VolcanoStatus) : string :=
  match s with
  | normal => "normal"
  | advisory => "advisory"
  | watch => "watch"
  | warning => "warning"
  | erupting => "erupting"
  end.

(** [volcanoes.reduce((acc, v) => { acc[v.status] = (acc[v.status] || 0) + 1;
    return acc; }, {})] *)
Definition statusCounts (volcanoes : list Volcano.t) : gmap string Z :=
  foldl
    (λ acc v,
       <[statusName (Volcano.status v) :=
           default 0 (acc !! statusName (Volcano.status v)) + 1]> acc)
    ∅ volcanoes.

(** [statusCounts[status] || 0], the count shown beside a status. *)
Definition shownCount (volcanoes : list Volcano.t) (status : VolcanoStatus) : Z :=
  default 0 (statusCounts volcanoes !! statusName status).

Definition statusOrder : list VolcanoStatus :=
  [erupting; warning; watch; advisory; normal].

(* ===================================================================== *)
(** ** The page: status filter and navigation among erupting volcanoes *)
(* ===================================================================== *)

(** [volcanoes.filter((v) => v.status === "erupting")] *)
Definition eruptingVolcanoes (volcanoes : list Volcano.t) : list Volcano.t :=
  List.filter (λ v, bool_decide (Volcano.status v = erupting)) volcanoes.

(** The updater that [handleToggleStatus] hands to [setVisibleStatuses]. *)
Definition handleToggleStatus (status : string) (prev : gset string) : gset string :=
  if bool_decide (status ∈ prev) then prev ∖ {[status]} else prev ∪ {[status]}.

(** [array[i]] for a number [i]: undefined outside the array. *)
Definition Array_at {A} (l : list A) (i : Z) : option A :=
  if i <? 0 then None else l !! Z.to_nat i.

(** The part of the page state that the two handlers write. The camera
    move that follows is not part of the embedding. *)
Record Navigation : Type := mkNavigation {
  eruptingIndex : Z;
  selectedVolcano : option Volcano.t
}.

(** [%] is the remainder of the truncated division. *)
Definition handleNextErupting (erupting : list Volcano.t) (st : Navigation)
  : Navigation :=
  if Z.of_nat (length erupting) =? 0 then st
  else
    let nextIndex := Z.rem (eruptingIndex st + 1) (Z.of_nat (length erupting)) in
    {| eruptingIndex := nextIndex; selectedVolcano := Array_at erupting nextIndex |}.

Definition handlePrevErupting (erupting : list Volcano.t) (st : Navigation)
  : Navigation :=
  if Z.of_nat (length erupting) =? 0 then st
  else
    let prevIndex :=
      Z.rem (eruptingIndex st - 1 + Z.of_nat (length erupting))
            (Z.of_nat (length erupting)) in
    {| eruptingIndex := prevIndex; selectedVolcano := Array_at erupting prevIndex |}.

(* ===================================================================== *)
(** ** src/hooks/useVolcanoes.ts *)
(* ===================================================================== *)

Module Hook.
Record t : Type := mk {
  volcanoes : list Volcano.t;
  isLoading : bool;
  error : option string;
  lastUpdated : option Z
}.

(** The state of the first render. *)
Definition initial : t :=
  {| volcanoes := []; isLoading := true; error := None; lastUpdated := None |}.

Section FetchVolcanoes.
(** The text of the errors that the host raises itself. *)
Variable hostMessage : Exn → string.

Definition message (e : Exn) : string :=
  match e with
  | Error m => m
  | _ => hostMessage e
  end.

(** What the [try] block obtains from the request. *)
Definition request (outcome : FetchOutcome VolcanoApiResponse.t)
  : Exn + VolcanoApiResponse.t :=
  match outcome with
  | Rejected => inl NetworkFailure
  | Responded ok status body =>
      if negb ok then inl (Error ("Failed to fetch: " +:+ String_of status))
      else match body with
           | NotJson => inl SyntaxError
           | Json data => inr data
           end
  end.

(** One run of [fetchVolcanoes], from the state it starts in to the state
    it leaves when its promise settles. *)
Definition fetchVolcanoes (outcome : FetchOutcome VolcanoApiResponse.t) (st : t) : t :=
  let st1 := {| volcanoes := volcanoes st; isLoading := true; error := None;
                lastUpdated := lastUpdated st |} in
  let st2 :=
    match request outcome with
    | inr data =>
        {| volcanoes := VolcanoApiResponse.volcanoes data;
           isLoading := isLoading st1; error := error st1;
           lastUpdated := Some (VolcanoApiResponse.lastUpdated data) |}
    | inl err =>
        {| volcanoes := volcanoes st1; isLoading := isLoading st1;
           error := Some (message err); lastUpdated := lastUpdated st1 |}
    end in
  {| volcanoes := volcanoes st2; isLoading := false; error := error st2;
     lastUpdated := lastUpdated st2 |}.
End FetchVolcanoes.
End Hook.

(* ===================================================================== *)
(** ** Further notions used in the statements *)
(* ===================================================================== *)

(** An eruption response that carries the records [records]. *)
Definition eruptionsDelivered (status : Z) (records : list GVPEruption.t)
  : FetchOutcome GVPEruptionsResponse.t :=
  Responded true status
    (Json {| GVPEruptionsResponse.features := Some (featureOf <$> records) |}).

(** The row of the status report that stands for a feed record. *)
Definition statusRow (r : GVPEruption.t) : EruptingVolcano.t :=
  {| EruptingVolcano.id := String_of (GVPEruption.VolcanoNumber r);
     EruptingVolcano.name := GVPEruption.VolcanoName r;
     EruptingVolcano.startDate := GVPEruption.StartDate r |}.

(** The eruption cache holds nothing that is younger than 30 minutes. *)
Definition eruptionCacheStale (now : Z) (w : World) : Prop :=
  eruptionCache w = None
  ∨ (∃ c, eruptionCache w = Some c
          ∧ ERUPTION_CACHE_DURATION ≤ now - EruptionCache.timestamp c).

(** The catalog cache holds nothing that is younger than 6 hours. *)
Definition catalogCacheStale (now : Z) (w : World) : Prop :=
  cachedData w = None
  ∨ (∃ c, cachedData w = Some c
          ∧ CACHE_DURATION ≤ now - CachedData.timestamp c).

(** Number of volcanoes of a list that have a given status. *)
Definition withStatus (status : VolcanoStatus) (volcanoes : list Volcano.t) : nat :=
  length (List.filter (λ v, bool_decide (Volcano.status v = status)) volcanoes).

(* ===================================================================== *)
(** ** Lemmas on the runtime notions *)
(* ===================================================================== *)

Lemma String_of_inj (m n : Z) : String_of m = String_of n → m = n.
Proof. unfold String_of. apply (inj pretty). Qed.

Lemma truthy_true (s : string) : truthy s = true ↔ s ≠ "".
Proof.
  unfold truthy. rewrite negb_true_iff.
  destruct (String.eqb_spec s ""); split; congruence.
Qed.

Section MapFacts.
Context {V : Type}.
Implicit Types (m : Map.t V) (k : string) (v : V).

Lemma Map_get_None m k : Map.get m k = None ↔ k ∉ Map.keys m.
Proof.
  unfold Map.keys. induction m as [|[k' v'] m IH]; simpl.
  - split; [intros _; apply not_elem_of_nil | done].
  - rewrite not_elem_of_cons. destruct (String.eqb_spec k' k) as [->|Hne].
    + split; [done | intros [? _]; done].
    + rewrite IH. split; [intros ?; split; [congruence | done] | intros [_ ?]; done].
Qed.

Lemma Map_has_keys m k : Map.has m k = true ↔ k ∈ Map.keys m.
Proof.
  unfold Map.has. destruct (Map.get m k) eqn:Hget.
  - split; [intros _ | done].
    destruct (decide (k ∈ Map.keys m)) as [|Hn]; [done|].
    apply Map_get_None in Hn. congruence.
  - split; [done | intros Hin]. by apply Map_get_None in Hget.
Qed.

Lemma Map_has_false m k : Map.has m k = false ↔ k ∉ Map.keys m.
Proof.
  rewrite <- Map_has_keys. destruct (Map.has m k); split; congruence.
Qed.

Lemma Map_get_set m k v k' :
  Map.get (Map.set m k v) k' = if String.eqb k k' then Some v else Map.get m k'.
Proof.
  induction m as [|[k0 v0] m IH]; simpl; [done|].
  destruct (String.eqb_spec k0 k) as [->|Hne]; simpl.
  - by destruct (String.eqb k k').
  - rewrite IH. destruct (String.eqb_spec k0 k') as [->|Hne'].
    + by destruct (String.eqb_spec k k'); [congruence|].
    + done.
Qed.

(** Setting an absent key appends an entry. *)
Lemma Map_set_fresh m k v : Map.has m k = false → Map.set m k v = (m ++ [(k, v)])%list.
Proof.
  rewrite Map_has_false. unfold Map.keys.
  induction m as [|[k0 v0] m IH]; simpl; [done|].
  rewrite not_elem_of_cons. intros [Hne Hnin].
  destruct (String.eqb_spec k0 k); [congruence|]. by rewrite IH.
Qed.

Lemma Map_keys_set_fresh m k v :
  Map.has m k = false → Map.keys (Map.set m k v) = (Map.keys m ++ [k])%list.
Proof.
  intros Hf. rewrite Map_set_fresh by done. unfold Map.keys.
  by rewrite fmap_app.
Qed.

(** A map whose keys are pairwise distinct stores at most one entry
    under each key. *)
Lemma Map_count_NoDup m k :
  NoDup (Map.keys m) →
  Map.count m k = if Map.has m k then 1%nat else 0%nat.
Proof.
  unfold Map.count, Map.keys. induction m as [|[k0 v0] m IH]; simpl; [done|].
  rewrite NoDup_cons. intros [Hnin Hnd]. specialize (IH Hnd).
  unfold Map.has in *. simpl.
  destruct (String.eqb_spec k0 k) as [->|Hne]; [|done].
  simpl. rewrite IH.
  assert (Map.get m k = None) as -> by by apply Map_get_None.
  done.
Qed.
(** With pairwise distinct keys, an entry is what [get] finds. *)
Lemma Map_get_entry m k v :
  NoDup (Map.keys m) → (k, v) ∈ m → Map.get m k = Some v.
Proof.
  unfold Map.keys. induction m as [|[k0 v0] m IH]; simpl.
  { by intros _ ?%elem_of_nil. }
  rewrite NoDup_cons. intros [Hnin Hnd] Hin.
  apply elem_of_cons in Hin as [[= <- <-]|Hin].
  - by rewrite String.eqb_refl.
  - destruct (String.eqb_spec k0 k) as [->|]; [|by apply IH].
    destruct Hnin. apply list_elem_of_fmap. by exists (k, v).
Qed.
End MapFacts.

(* ===================================================================== *)
(** ** The eruption feed cache (gvp-eruptions.ts) *)
(* ===================================================================== *)

Section EruptionFeed.
Implicit Types (records : list GVPEruption.t) (acc : Map.t ActiveEruption.t).
Implicit Types (w : World) (now : Z).

Lemma firstContinuing_cons id r records :
  firstContinuing id (r :: records) =
    if continuing r && String.eqb (String_of (GVPEruption.VolcanoNumber r)) id
    then Some r else firstContinuing id records.
Proof. reflexivity. Qed.

(** The loop, over features that all carry properties: a key already in
    the map keeps its entry, a new key gets its first continuing record. *)
Lemma collectEruptions_records records : ∀ acc,
  ∃ m, collectEruptions (featureOf <$> records) acc = inr m
    ∧ (∀ id, Map.get m id =
             match Map.get acc id with
             | Some e => Some e
             | None => toActiveEruption <$> firstContinuing id records
             end)
    ∧ (NoDup (Map.keys acc) → NoDup (Map.keys m)).
Proof.
  induction records as [|r records IH]; intros acc.
  - exists acc. split; [done|]. split; [|done].
    intros id. simpl. by destruct (Map.get acc id).
  - cbn [fmap list_fmap collectEruptions featureOf EruptionFeature.properties].
    fold (continuing r).
    set (id0 := String_of (GVPEruption.VolcanoNumber r)).
    destruct (continuing r) eqn:Hc.
    + destruct (Map.has acc id0) eqn:Hhas; cbn [negb].
      * destruct (IH acc) as (m & Hm & Hget & Hnd).
        exists m. split; [exact Hm|]. split; [|exact Hnd].
        intros id. rewrite Hget, firstContinuing_cons, Hc. fold id0.
        destruct (String.eqb_spec id0 id) as [<-|Hne]; [|done].
        unfold Map.has in Hhas. by destruct (Map.get acc id0).
      * destruct (IH (Map.set acc id0 (toActiveEruption r)))
          as (m & Hm & Hget & Hnd).
        exists m. split; [exact Hm|]. split.
        -- intros id. rewrite Hget, Map_get_set, firstContinuing_cons, Hc.
           fold id0. destruct (String.eqb_spec id0 id) as [<-|Hne]; cbn [andb].
           ++ unfold Map.has in Hhas. by destruct (Map.get acc id0).
           ++ done.
        -- intros Hacc. apply Hnd. rewrite Map_keys_set_fresh by done.
           apply NoDup_app. split; [done|]. split; [|apply NoDup_singleton].
           intros x Hx ->%list_elem_of_singleton.
           by apply Map_has_false in Hhas.
    + destruct (IH acc) as (m & Hm & Hget & Hnd).
      exists m. split; [exact Hm|]. split; [|exact Hnd].
      intros id. by rewrite Hget, firstContinuing_cons, Hc.
Qed.

(** Reading the flag of a feature without properties throws, whatever
    has been collected so far. *)
Lemma collectEruptions_malformed features : ∀ acc,
  existsb lacksProperties features = true →
  collectEruptions features acc = inl TypeError.
Proof.
  induction features as [|[[r|]] features IH]; intros acc; simpl;
    [done| |done].
  intros H. by repeat case_match; apply IH.
Qed.

Lemma features_all_records features :
  existsb lacksProperties features = false →
  ∃ records, features = featureOf <$> records.
Proof.
  induction features as [|[[r|]] features IH]; simpl; [by exists []| |done].
  intros (records & ->)%IH. by exists (r :: records).
Qed.

(** The three ways through [fetchActiveEruptions]. *)
Lemma fetchActiveEruptions_hit now feed w c :
  eruptionCache_fresh now (eruptionCache w) = Some c →
  fetchActiveEruptions now feed w = (inr (EruptionCache.eruptions c), w).
Proof.
  intros H. unfold fetchActiveEruptions, try_catch, bind, read_eruptionCache.
  by rewrite H.
Qed.

Lemma fetchActiveEruptions_failure now feed w :
  eruptionCache_fresh now (eruptionCache w) = None →
  eruptionsFeedFails feed = true →
  fetchActiveEruptions now feed w =
    (inr (match eruptionCache w with
          | Some c => EruptionCache.eruptions c
          | None => Map.empty
          end),
     {| eruptionCache := eruptionCache w; cachedData := cachedData w;
        activeEruptions := activeEruptions w;
        requests := requests w ++ [GVP_ERUPTIONS_URL] |}).
Proof.
  intros Hfresh Hfail.
  unfold fetchActiveEruptions, try_catch, bind, read_eruptionCache.
  rewrite Hfresh. destruct feed as [|ok status body]; simpl.
  { by destruct (eruptionCache w). }
  destruct ok; simpl in *; [|by destruct (eruptionCache w)].
  destruct body as [|[features]]; simpl in *; [by destruct (eruptionCache w)|].
  destruct features as [features|]; simpl; [|by destruct (eruptionCache w)].
  unfold liftR. rewrite collectEruptions_malformed by done.
  by destruct (eruptionCache w).
Qed.

Lemma fetchActiveEruptions_success now status records w :
  eruptionCache_fresh now (eruptionCache w) = None →
  ∃ m, collectEruptions (featureOf <$> records) Map.empty = inr m ∧
    fetchActiveEruptions now
      (Responded true status
         (Json {| GVPEruptionsResponse.features := Some (featureOf <$> records) |}))
      w =
    (inr m,
     {| eruptionCache := Some {| EruptionCache.eruptions := m;
                                 EruptionCache.timestamp := now |};
        cachedData := cachedData w;
        activeEruptions := activeEruptions w;
        requests := requests w ++ [GVP_ERUPTIONS_URL] |}).
Proof.
  intros Hfresh.
  destruct (collectEruptions_records records Map.empty) as (m & Hm & _).
  exists m. split; [exact Hm|].
  unfold fetchActiveEruptions, try_catch, bind, read_eruptionCache.
  rewrite Hfresh. simpl. unfold liftR. by rewrite Hm.
Qed.

Lemma eruptionCache_fresh_Some now cache c :
  eruptionCache_fresh now cache = Some c → cache = Some c.
Proof.
  unfold eruptionCache_fresh. destruct cache as [c'|]; [|done].
  by case_match; intros [= ->].
Qed.

(** It always returns a map, and the rest of the state is left alone. *)
Lemma fetchActiveEruptions_total now feed w :
  ∃ snapshot w',
    fetchActiveEruptions now feed w = (inr snapshot, w')
    ∧ cachedData w' = cachedData w
    ∧ activeEruptions w' = activeEruptions w.
Proof.
  destruct (eruptionCache_fresh now (eruptionCache w)) as [c|] eqn:Hfresh.
  { eexists _, _. split; [by apply fetchActiveEruptions_hit|done]. }
  destruct (eruptionsFeedFails feed) eqn:Hfail.
  { eexists _, _. split; [by apply fetchActiveEruptions_failure|done]. }
  destruct feed as [|[] status [|[[features|]]]]; simpl in Hfail; try done.
  apply features_all_records in Hfail as (records & ->).
  destruct (fetchActiveEruptions_success now status records w Hfresh)
    as (m & _ & ->).
  by eexists _, _.
Qed.
End EruptionFeed.

(** C5. [fetchActiveEruptions] never raises: for every clock reading, feed
    outcome and state it returns a map. When the request fails (network
    error, non-success status, malformed payload) the map is the one of the
    previous cache entry, whatever its age, or the empty map when there is
    no entry, and the cache entry is left as it was. *)
Theorem fetchActiveEruptions_fail_open (now : Z)
    (feed : FetchOutcome GVPEruptionsResponse.t) (w : World) :
  ∃ snapshot w',
    fetchActiveEruptions now feed w = (inr snapshot, w')
    ∧ (eruptionsFeedFails feed = true →
       snapshot = lastKnownEruptions (eruptionCache w)
       ∧ eruptionCache w' = eruptionCache w).
Proof.
  destruct (eruptionCache_fresh now (eruptionCache w)) as [c|] eqn:Hfresh.
  - exists (EruptionCache.eruptions c), w.
    split; [by apply fetchActiveEruptions_hit|].
    intros _. by rewrite (eruptionCache_fresh_Some _ _ _ Hfresh).
  - destruct (eruptionsFeedFails feed) eqn:Hfail.
    + eexists _, _. split; [by apply fetchActiveEruptions_failure|done].
    + destruct (fetchActiveEruptions_total now feed w) as (s & w' & -> & _).
      by exists s, w'.
Qed.

(** A stale entry (31 minutes old) served on a 503, and kept. *)
Lemma fetchActiveEruptions_fail_open_witness :
  let entry :=
    {| EruptionCache.eruptions :=
         [("300150", {| ActiveEruption.volcanoId := "300150";
                        ActiveEruption.volcanoName := "Kilauea";
                        ActiveEruption.startDate := None;
                        ActiveEruption.vei := Some 1 |})];
       EruptionCache.timestamp := 0 |} in
  let w := {| eruptionCache := Some entry; cachedData := None;
              activeEruptions := Map.empty; requests := [] |} in
  ∃ snapshot w',
    fetchActiveEruptions (31 * 60 * 1000) (Responded false 503 NotJson) w
      = (inr snapshot, w')
    ∧ snapshot = EruptionCache.eruptions entry
    ∧ eruptionCache w' = Some entry.
Proof.
  intros entry w.
  destruct (fetchActiveEruptions_fail_open (31 * 60 * 1000)
              (Responded false 503 NotJson) w) as (snapshot & w' & Hrun & Hfail).
  exists snapshot, w'. split; [exact Hrun|]. apply Hfail. reflexivity.
Defined.

(** C6. When the feed is delivered and a request is made, the snapshot
    holds under every identifier the first continuing record of the feed
    with that identifier, and holds exactly one entry for it (none when
    the feed has no continuing record with that identifier); every entry
    of the snapshot stands for a record whose flag is "True". *)
Theorem fetchActiveEruptions_first_wins (now status : Z)
    (records : list GVPEruption.t) (w : World) :
  eruptionCache_fresh now (eruptionCache w) = None →
  ∃ snapshot w',
    fetchActiveEruptions now
      (Responded true status
         (Json {| GVPEruptionsResponse.features := Some (featureOf <$> records) |}))
      w = (inr snapshot, w')
    ∧ (∀ id, Map.get snapshot id = toActiveEruption <$> firstContinuing id records)
    ∧ (∀ id, Map.count snapshot id =
             match firstContinuing id records with
             | Some _ => 1%nat
             | None => 0%nat
             end)
    ∧ (∀ e, e ∈ Map.values snapshot →
            ∃ r, r ∈ records ∧ GVPEruption.ContinuingEruption r = "True"
                 ∧ e = toActiveEruption r).
Proof.
  intros Hfresh.
  destruct (fetchActiveEruptions_success now status records w Hfresh)
    as (m & Hm & Hrun).
  destruct (collectEruptions_records records Map.empty)
    as (m' & Hm' & Hget & Hnd).
  rewrite Hm in Hm'. injection Hm' as <-.
  specialize (Hnd (NoDup_nil_2 (A:=string))). cbn [Map.get Map.empty] in Hget.
  exists m. eexists. split; [exact Hrun|]. split; [exact Hget|]. split.
  - intros id. rewrite Map_count_NoDup by done. unfold Map.has.
    rewrite Hget. by destruct (firstContinuing id records).
  - intros e He. unfold Map.values in He.
    apply list_elem_of_fmap in He as ([k e'] & -> & Hin). simpl.
    pose proof (Map_get_entry m k e' Hnd Hin) as Hk. rewrite Hget in Hk.
    destruct (firstContinuing k records) as [r|] eqn:Hfind; [|done].
    injection Hk as <-. apply find_some in Hfind as [Hin' Hc].
    apply andb_true_iff in Hc as [Hc _]. exists r.
    split; [by apply list_elem_of_In|]. split; [|done].
    by apply String.eqb_eq in Hc.
Qed.

(** Two continuing records of volcano 300150 and a closed one of 211060. *)
Lemma fetchActiveEruptions_first_wins_witness :
  let first := {| GVPEruption.VolcanoNumber := 300150;
                  GVPEruption.VolcanoName := "Kilauea";
                  GVPEruption.ContinuingEruption := "True";
                  GVPEruption.StartDate := Some "2024-12-23";
                  GVPEruption.StartDateYear := 2024;
                  GVPEruption.ExplosivityIndexMax := Some 1 |} in
  let second := {| GVPEruption.VolcanoNumber := 300150;
                   GVPEruption.VolcanoName := "Kilauea";
                   GVPEruption.ContinuingEruption := "True";
                   GVPEruption.StartDate := Some "2021-09-29";
                   GVPEruption.StartDateYear := 2021;
                   GVPEruption.ExplosivityIndexMax := Some 0 |} in
  let closed := {| GVPEruption.VolcanoNumber := 211060;
                   GVPEruption.VolcanoName := "Etna";
                   GVPEruption.ContinuingEruption := "False";
                   GVPEruption.StartDate := None;
                   GVPEruption.StartDateYear := 2013;
                   GVPEruption.ExplosivityIndexMax := None |} in
  ∃ snapshot w',
    fetchActiveEruptions 5
      (Responded true 200
         (Json {| GVPEruptionsResponse.features :=
                    Some (featureOf <$> [closed; first; second]) |}))
      initialWorld = (inr snapshot, w')
    ∧ Map.get snapshot "300150" = Some (toActiveEruption first)
    ∧ Map.count snapshot "300150" = 1%nat
    ∧ Map.count snapshot "211060" = 0%nat.
Proof.
  intros first second closed.
  destruct (fetchActiveEruptions_first_wins 5 200 [closed; first; second]
              initialWorld eq_refl) as (snapshot & w' & Hrun & Hget & Hcount & _).
  exists snapshot, w'. split; [exact Hrun|].
  split; [exact (Hget "300150")|].
  split; [exact (Hcount "300150") | exact (Hcount "211060")].
Defined.

(** C9. [POST] (through [invalidateEruptionCache]) empties the eruption
    cache whatever its timestamp and leaves the catalog cache, the
    route's eruption map and the request log as they were; the next
    [fetchActiveEruptions] then issues a request to the eruption feed,
    for every clock reading, hence also within 30 minutes of the entry
    that was cleared. *)
Theorem POST_forces_refetch (nowPost now : Z)
    (feed : FetchOutcome GVPEruptionsResponse.t) (w : World) :
  let w1 := (POST nowPost w).2 in
  let w2 := (fetchActiveEruptions now feed w1).2 in
  (∃ response, (POST nowPost w).1 = inr response
               ∧ RefreshResponse.success (NextResponse.body response) = true)
  ∧ eruptionCache w1 = None
  ∧ cachedData w1 = cachedData w
  ∧ activeEruptions w1 = activeEruptions w
  ∧ requests w1 = requests w
  ∧ requests w2 = (requests w ++ [GVP_ERUPTIONS_URL])%list
  ∧ cachedData w2 = cachedData w.
Proof.
  intros w1 w2. subst w2 w1.
  split; [by eexists|]. do 4 (split; [done|]).
  unfold POST, try_catch, bind, invalidateEruptionCache, write_eruptionCache, ret.
  cbn [snd].
  set (w1 := {| eruptionCache := None; cachedData := cachedData w;
                activeEruptions := activeEruptions w; requests := requests w |}).
  destruct (eruptionsFeedFails feed) eqn:Hfail.
  - by rewrite (fetchActiveEruptions_failure now feed w1 eq_refl Hfail).
  - destruct feed as [|[] status [|[[features|]]]]; simpl in Hfail; try done.
    apply features_all_records in Hfail as (records & ->).
    destruct (fetchActiveEruptions_success now status records w1 eq_refl)
      as (m & _ & ->).
    done.
Qed.

(** A one-minute-old entry: no request before [POST], one after it. *)
Lemma POST_forces_refetch_witness :
  let w := {| eruptionCache := Some {| EruptionCache.eruptions := Map.empty;
                                       EruptionCache.timestamp := 0 |};
              cachedData := None; activeEruptions := Map.empty;
              requests := [] |} in
  requests (fetchActiveEruptions 60000 Rejected w).2 = []
  ∧ eruptionCache (POST 59000 w).2 = None
  ∧ requests (fetchActiveEruptions 60000 Rejected (POST 59000 w).2).2
    = [GVP_ERUPTIONS_URL].
Proof.
  intros w.
  destruct (POST_forces_refetch 59000 60000 Rejected w)
    as (_ & Hcache & _ & _ & _ & Hreq & _).
  split; [reflexivity|]. split; [exact Hcache | exact Hreq].
Defined.

(* ===================================================================== *)
(** ** Sorting *)
(* ===================================================================== *)

Section ArraySortFacts.
Context {A : Type} (compareFn : A → A → Z).

Lemma sort_insert_Permutation (x : A) (l : list A) :
  sort_insert compareFn x l ≡ₚ x :: l.
Proof.
  induction l as [|y l IH]; simpl; [done|].
  case_match; [done|]. rewrite IH. apply Permutation_swap.
Qed.

Lemma Array_sort_Permutation (l : list A) : Array_sort compareFn l ≡ₚ l.
Proof.
  induction l as [|x l IH]; simpl; [done|].
  by rewrite sort_insert_Permutation, IH.
Qed.

Lemma StronglySorted_mono (R R' : A → A → Prop) (l : list A) :
  (∀ a b, R a b → R' a b) → StronglySorted R l → StronglySorted R' l.
Proof.
  intros HR. induction 1 as [|x l _ IH Hall]; constructor; [done|].
  eapply List.Forall_impl; [|exact Hall]. apply HR.
Qed.

Lemma StronglySorted_lookup (R : A → A → Prop) (l : list A) :
  StronglySorted R l →
  ∀ i j a b, (i < j)%nat → l !! i = Some a → l !! j = Some b → R a b.
Proof.
  induction 1 as [|x l _ IH Hall]; intros i j a b Hij Hi Hj; [done|].
  destruct j as [|j]; [lia|]. cbn in Hj. destruct i as [|i]; cbn in Hi.
  - injection Hi as <-. rewrite List.Forall_forall in Hall.
    apply Hall, list_elem_of_In. by eapply list_elem_of_lookup_2.
  - eapply (IH i j); [lia|done..].
Qed.

(** What makes a comparator consistent. *)
Hypothesis compareFn_total : ∀ a b, 0 < compareFn a b → compareFn b a ≤ 0.
Hypothesis compareFn_trans :
  ∀ a b c, compareFn a b ≤ 0 → compareFn b c ≤ 0 → compareFn a c ≤ 0.

Lemma sort_insert_StronglySorted (x : A) (l : list A) :
  StronglySorted (λ a b, compareFn a b ≤ 0) l →
  StronglySorted (λ a b, compareFn a b ≤ 0) (sort_insert compareFn x l).
Proof.
  induction 1 as [|y l Hl IH Hall]; simpl.
  { constructor; [constructor | constructor]. }
  destruct (Z.leb_spec (compareFn x y) 0) as [Hle|Hgt].
  - constructor; [by constructor|]. constructor; [done|].
    eapply List.Forall_impl; [|exact Hall]. intros z Hz. by eapply compareFn_trans.
  - constructor; [done|].
    apply List.Forall_forall. intros z Hz%list_elem_of_In.
    rewrite sort_insert_Permutation in Hz.
    apply elem_of_cons in Hz as [->|Hz]; [by apply compareFn_total|].
    rewrite List.Forall_forall in Hall. by apply Hall, list_elem_of_In.
Qed.

Lemma Array_sort_StronglySorted (l : list A) :
  StronglySorted (λ a b, compareFn a b ≤ 0) (Array_sort compareFn l).
Proof.
  induction l as [|x l IH]; simpl; [constructor|].
  by apply sort_insert_StronglySorted.
Qed.
End ArraySortFacts.

(* ===================================================================== *)
(** ** The catalog aggregation (volcanoes/route.ts) *)
(* ===================================================================== *)

Lemma codeUnitCompare_le (a b : string) : codeUnitCompare a b ≤ 0 ↔ String.le a b.
Proof.
  unfold codeUnitCompare, String.le, String.leb.
  destruct (String.compare a b); simpl; split; (done || lia).
Qed.

Lemma codeUnitCompare_antisym (a b : string) :
  Z.sgn (codeUnitCompare b a) = - Z.sgn (codeUnitCompare a b).
Proof.
  unfold codeUnitCompare. rewrite (String.compare_antisym a b).
  by destruct (String.compare b a).
Qed.

Lemma codeUnitCompare_trans (a b c : string) :
  codeUnitCompare a b ≤ 0 → codeUnitCompare b c ≤ 0 → codeUnitCompare a c ≤ 0.
Proof. rewrite !codeUnitCompare_le. apply transitivity. Qed.

Lemma hasRequiredFields_wellFormed (f : GVPFeature.t) :
  hasRequiredFields f = true ↔ wellFormed f.
Proof.
  unfold hasRequiredFields, wellFormed. split.
  - destruct (GVPFeature.geometry f) as [g|]; [|done].
    destruct (Geometry.coordinates g) as [c|] eqn:Hc; [|done].
    destruct (GVPFeature.properties f) as [p|]; [|done].
    destruct (Properties.Volcano_Name p) as [n|] eqn:Hn; [|done].
    intros Ht%truthy_true. by exists g, c, p, n.
  - intros (g & c & p & n & -> & -> & -> & -> & Hne). by apply truthy_true.
Qed.

Lemma hasRequiredFields_missing (f : GVPFeature.t) :
  missingRequired f → hasRequiredFields f = false.
Proof.
  unfold hasRequiredFields.
  intros [->|[(g & -> & ->)|[Hp|(p & Hp & Hn)]]]; try done;
    repeat case_match; simplify_eq; done.
Qed.

Lemma parseGeoJSONFeature_retained (ae : Map.t ActiveEruption.t) (f : GVPFeature.t) :
  hasRequiredFields f = true →
  ∃ v p, parseGeoJSONFeature ae f = inr v
         ∧ GVPFeature.properties f = Some p
         ∧ Volcano.id v = String_of (Properties.Volcano_Number p)
         ∧ Volcano.status v = determineStatus ae (Volcano.id v).
Proof.
  intros (g & [lon lat] & p & n & Hg & Hc & Hp & Hn & _)%hasRequiredFields_wellFormed.
  unfold parseGeoJSONFeature. rewrite Hg, Hp, Hc, Hn. by eexists _, _.
Qed.

Lemma parseGeoJSONFeature_vei (ae : Map.t ActiveEruption.t) (f : GVPFeature.t)
    (v : Volcano.t) :
  parseGeoJSONFeature ae f = inr v → Volcano.vei v = None.
Proof.
  unfold parseGeoJSONFeature. repeat case_match; try done; by intros [= <-].
Qed.

(** After the filter, the map throws on no feature and makes one record
    per feature, in order. *)
Lemma Array_map_retained (ae : Map.t ActiveEruption.t) (features : list GVPFeature.t) :
  ∃ vs, Array_map (parseGeoJSONFeature ae) (List.filter hasRequiredFields features)
          = inr vs
        ∧ Volcano.id <$> vs = String_of <$> retainedNumbers features
        ∧ length vs = length (List.filter hasRequiredFields features)
        ∧ Forall (λ v, Volcano.vei v = None) vs.
Proof.
  unfold retainedNumbers.
  induction features as [|f features (vs & Hvs & Hids & Hlen & Hvei)]; simpl.
  { by exists []. }
  destruct (hasRequiredFields f) eqn:Hf; [|by exists vs].
  destruct (parseGeoJSONFeature_retained ae f Hf) as (v & p & Hv & Hp & Hid & _).
  exists (v :: vs). simpl. rewrite Hv, Hvs, Hp. simpl.
  split; [done|]. split; [f_equal; [exact Hid | exact Hids]|]. split; [by rewrite Hlen|].
  constructor; [by eapply parseGeoJSONFeature_vei | done].
Qed.

Lemma Array_map_vei (ae : Map.t ActiveEruption.t) (l : list GVPFeature.t) :
  ∀ vs, Array_map (parseGeoJSONFeature ae) l = inr vs →
        Forall (λ v, Volcano.vei v = None) vs.
Proof.
  induction l as [|f l IH]; simpl; intros vs.
  { intros [= <-]. constructor. }
  destruct (parseGeoJSONFeature ae f) as [e|v] eqn:Hv; [done|].
  destruct (Array_map (parseGeoJSONFeature ae) l) as [e|vs'] eqn:Hl; [done|].
  intros [= <-]. constructor; [by eapply parseGeoJSONFeature_vei | by apply IH].
Qed.

Section Aggregation.
Variable localeCompare : string → string → Z.
Implicit Types (w : World) (features : list GVPFeature.t).

(** The comparator of the sort decides the order of the specification. *)
Lemma compareVolcanoes_le (a b : Volcano.t) :
  compareVolcanoes localeCompare a b ≤ 0 ↔ volcanoLe localeCompare a b.
Proof.
  unfold compareVolcanoes, volcanoLe.
  destruct (Z.eqb_spec (statusPriority (Volcano.status a)
                        - statusPriority (Volcano.status b)) 0); simpl; lia.
Qed.

(** A failed catalog request: the fallback list, and the catalog cache is
    not touched by [fetchVolcanoData] itself. *)
Lemma fetchVolcanoData_failure nowE eFeed cFeed w :
  catalogFeedFails cFeed = true →
  ∃ w', fetchVolcanoData localeCompare nowE eFeed cFeed w
          = (inr getFallbackVolcanoData, w')
        ∧ cachedData w' = cachedData w.
Proof.
  intros Hfail.
  destruct (fetchActiveEruptions_total nowE eFeed w) as (s & w1 & Hrun & Hc & _).
  unfold fetchVolcanoData, try_catch, bind. rewrite Hrun. simpl.
  destruct cFeed as [|[] status [|[[features|]]]]; simpl in *; try done;
    by eexists.
Qed.

(** A delivered catalog: the sorted records of the retained features. *)
Lemma fetchVolcanoData_success nowE eFeed status features w :
  ∃ snapshot vs w',
    Array_map (parseGeoJSONFeature snapshot)
      (List.filter hasRequiredFields features) = inr vs
    ∧ fetchVolcanoData localeCompare nowE eFeed (catalogOf status features) w
      = (inr (Array_sort (compareVolcanoes localeCompare) vs), w')
    ∧ cachedData w' = cachedData w
    ∧ activeEruptions w' = snapshot.
Proof.
  destruct (fetchActiveEruptions_total nowE eFeed w) as (s & w1 & Hrun & Hc & _).
  destruct (Array_map_retained s features) as (vs & Hvs & _).
  exists s, vs. eexists. split; [exact Hvs|].
  unfold fetchVolcanoData, try_catch, bind. rewrite Hrun. simpl.
  unfold liftR. rewrite Hvs. done.
Qed.

(** Only the retained features of a delivered catalog matter. *)
Lemma fetchVolcanoData_filter nowE eFeed status features features' w :
  List.filter hasRequiredFields features = List.filter hasRequiredFields features' →
  fetchVolcanoData localeCompare nowE eFeed (catalogOf status features) w
  = fetchVolcanoData localeCompare nowE eFeed (catalogOf status features') w.
Proof.
  intros Heq. unfold fetchVolcanoData, try_catch, bind.
  destruct (fetchActiveEruptions nowE eFeed w) as [[e|s] w1]; [done|].
  simpl. by rewrite Heq.
Qed.

Lemma catalogFeedFails_false cFeed :
  catalogFeedFails cFeed = false →
  ∃ status features, cFeed = catalogOf status features.
Proof.
  destruct cFeed as [|[] status [|[[features|]]]]; simpl; try done.
  intros _. by exists status, features.
Qed.

Lemma cachedData_stale now (cache : option CachedData.t) :
  cache = None
  ∨ (∃ c, cache = Some c ∧ CACHE_DURATION < now - CachedData.timestamp c) →
  cachedData_fresh now cache = None.
Proof.
  intros [->|(c & -> & Hage)]; [done|]. unfold cachedData_fresh.
  destruct (Z.ltb_spec (now - CachedData.timestamp c) CACHE_DURATION); [lia|done].
Qed.

(** On a miss, [GET] answers with, and caches, whatever
    [fetchVolcanoData] returned. *)
Lemma GET_miss now nowE nowC eFeed cFeed w volcanoes w1 :
  cachedData_fresh now (cachedData w) = None →
  fetchVolcanoData localeCompare nowE eFeed cFeed w = (inr volcanoes, w1) →
  GET localeCompare now nowE nowC eFeed cFeed w =
    (inr (NextResponse.mk 200
            {| VolcanoApiResponse.volcanoes := volcanoes;
               VolcanoApiResponse.lastUpdated := now;
               VolcanoApiResponse.totalCount := Z.of_nat (length volcanoes) |}),
     {| eruptionCache := eruptionCache w1;
        cachedData := Some {| CachedData.volcanoes := volcanoes;
                              CachedData.timestamp := now |};
        activeEruptions := activeEruptions w1;
        requests := requests w1 |}).
Proof.
  intros Hfresh Hrun. unfold GET, try_catch, bind, read_cachedData.
  by rewrite Hfresh, Hrun.
Qed.

(** On a hit, [GET] serves the entry and does nothing else. *)
Lemma GET_hit now nowE nowC eFeed cFeed w c :
  cachedData_fresh now (cachedData w) = Some c →
  GET localeCompare now nowE nowC eFeed cFeed w =
    (inr (NextResponse.mk 200
            {| VolcanoApiResponse.volcanoes := CachedData.volcanoes c;
               VolcanoApiResponse.lastUpdated := CachedData.timestamp c;
               VolcanoApiResponse.totalCount :=
                 Z.of_nat (length (CachedData.volcanoes c)) |}),
     w).
Proof.
  intros Hfresh. unfold GET, try_catch, bind, read_cachedData.
  by rewrite Hfresh.
Qed.
End Aggregation.

(* ===================================================================== *)
(** ** Properties of the specification *)
(* ===================================================================== *)

(** C3. The status of an identifier follows the fixed priority, first
    match winning: erupting when the identifier is a key of the eruption
    snapshot (also when it is on a watchlist); otherwise warning when it is
    on the warning watchlist; otherwise watch when on the watch watchlist;
    otherwise advisory when on the advisory watchlist; otherwise normal. *)
Theorem determineStatus_priority (activeEruptions : Map.t ActiveEruption.t)
    (volcanoId : string) :
  let s := determineStatus activeEruptions volcanoId in
  (volcanoId ∈ Map.keys activeEruptions → s = erupting)
  ∧ (volcanoId ∉ Map.keys activeEruptions →
     (volcanoId ∈ WARNING_VOLCANO_IDS → s = warning)
     ∧ (volcanoId ∉ WARNING_VOLCANO_IDS →
        (volcanoId ∈ WATCH_VOLCANO_IDS → s = watch)
        ∧ (volcanoId ∉ WATCH_VOLCANO_IDS →
           (volcanoId ∈ ADVISORY_VOLCANO_IDS → s = advisory)
           ∧ (volcanoId ∉ ADVISORY_VOLCANO_IDS → s = normal)))).
Proof.
  unfold determineStatus, Set_has. split.
  - intros H%Map_has_keys. by rewrite H.
  - intros H%Map_has_false. rewrite H.
    repeat split; intros; repeat case_bool_decide; done.
Qed.

(** Merapi erupting although on the warning list; Merapi, Krakatau (on
    both the watch and the advisory list), Raung and an unlisted
    identifier when nothing erupts. *)
Lemma determineStatus_priority_witness :
  let merapi := {| ActiveEruption.volcanoId := "263250";
                   ActiveEruption.volcanoName := "Merapi";
                   ActiveEruption.startDate := None;
                   ActiveEruption.vei := None |} in
  determineStatus [("263250", merapi)] "263250" = erupting
  ∧ determineStatus [] "263250" = warning
  ∧ determineStatus [] "264020" = watch
  ∧ determineStatus [] "264140" = advisory
  ∧ determineStatus [] "300150" = normal.
Proof.
  intros merapi.
  assert (∀ (x : string) (s : gset string),
            bool_decide (x ∈ s) = false → x ∉ s) as no
    by (intros x s; apply bool_decide_eq_false_1).
  assert (∀ (x : string) (s : gset string),
            bool_decide (x ∈ s) = true → x ∈ s) as yes
    by (intros x s; apply bool_decide_eq_true_1).
  split.
  { apply (determineStatus_priority [("263250", merapi)] "263250").
    apply list_elem_of_here. }
  split.
  { apply (determineStatus_priority [] "263250"); [apply not_elem_of_nil|].
    apply yes. vm_compute. reflexivity. }
  split.
  { apply (determineStatus_priority [] "264020"); [apply not_elem_of_nil| |].
    - apply no. vm_compute. reflexivity.
    - apply yes. vm_compute. reflexivity. }
  split.
  { apply (determineStatus_priority [] "264140"); [apply not_elem_of_nil|..].
    - apply no. vm_compute. reflexivity.
    - apply no. vm_compute. reflexivity.
    - apply yes. vm_compute. reflexivity. }
  apply (determineStatus_priority [] "300150"); [apply not_elem_of_nil|..].
  - apply no. vm_compute. reflexivity.
  - apply no. vm_compute. reflexivity.
  - apply no. vm_compute. reflexivity.
Defined.

(** C1. When the catalog cache is absent or older than six hours and the
    catalog request fails (network error, non-ok status, or a payload that
    is not a feature collection), [GET] answers with exactly the fallback
    list, which has five entries, all erupting, whatever the cache held. *)
Theorem GET_fallback_on_failure (localeCompare : string → string → Z)
    (now nowEruptions nowCatch : Z)
    (eruptionsFeed : FetchOutcome GVPEruptionsResponse.t)
    (catalogFeed : FetchOutcome GVPGeoJSON.t) (w : World) :
  cachedData w = None
  ∨ (∃ c, cachedData w = Some c ∧ CACHE_DURATION < now - CachedData.timestamp c) →
  catalogFeedFails catalogFeed = true →
  ∃ response w',
    GET localeCompare now nowEruptions nowCatch eruptionsFeed catalogFeed w
      = (inr response, w')
    ∧ VolcanoApiResponse.volcanoes (NextResponse.body response)
      = getFallbackVolcanoData
    ∧ length (VolcanoApiResponse.volcanoes (NextResponse.body response)) = 5%nat
    ∧ Forall (λ v, Volcano.status v = erupting)
        (VolcanoApiResponse.volcanoes (NextResponse.body response)).
Proof.
  intros Hstale%(cachedData_stale now) Hfail.
  destruct (fetchVolcanoData_failure localeCompare nowEruptions eruptionsFeed
              catalogFeed w Hfail) as (w1 & Hrun & _).
  eexists _, _. split; [by eapply GET_miss|]. simpl.
  split; [done|]. split; [done|]. by repeat constructor.
Qed.

(** A catalog cached six hours and one millisecond ago, and a 503. *)
Lemma GET_fallback_on_failure_witness :
  ∃ response w',
    GET codeUnitCompare (CACHE_DURATION + 1) (CACHE_DURATION + 2)
        (CACHE_DURATION + 3) Rejected (Responded false 503 NotJson)
        sampleCachedWorld
      = (inr response, w')
    ∧ VolcanoApiResponse.volcanoes (NextResponse.body response)
      = getFallbackVolcanoData
    ∧ length (VolcanoApiResponse.volcanoes (NextResponse.body response)) = 5%nat
    ∧ Forall (λ v, Volcano.status v = erupting)
        (VolcanoApiResponse.volcanoes (NextResponse.body response)).
Proof.
  apply (GET_fallback_on_failure codeUnitCompare (CACHE_DURATION + 1)
           (CACHE_DURATION + 2) (CACHE_DURATION + 3) Rejected
           (Responded false 503 NotJson) sampleCachedWorld).
  - right. eexists. split; [reflexivity|]. vm_compute. reflexivity.
  - reflexivity.
Defined.

(** C2, as the code has it: after a [GET] whose catalog request fails, the
    catalog cache no longer holds the entry it held; it holds the fallback
    list stamped with the instant of the call, and the next [GET] within
    six hours serves that entry without any request. *)
Theorem GET_failure_replaces_cache :
  let now := CACHE_DURATION + 1 in
  let w' := (GET codeUnitCompare now now now Rejected Rejected sampleCachedWorld).2 in
  cachedData w' = Some {| CachedData.volcanoes := getFallbackVolcanoData;
                          CachedData.timestamp := now |}
  ∧ cachedData w' ≠ cachedData sampleCachedWorld
  ∧ (GET codeUnitCompare (now + 1000) (now + 1000) (now + 1000)
       (eruptionsOf []) (catalogOf 200 [sampleFeature 263250 "Merapi"]) w')
    = (inr (NextResponse.mk 200
              {| VolcanoApiResponse.volcanoes := getFallbackVolcanoData;
                 VolcanoApiResponse.lastUpdated := now;
                 VolcanoApiResponse.totalCount := 5 |}),
       w').
Proof.
  intros now w'. split; [reflexivity|]. split; [discriminate|].
  vm_compute. reflexivity.
Qed.

Section Claims.
Variable localeCompare : string → string → Z.

(** [localeCompare] is a consistent comparison of names. *)
Hypothesis localeCompare_antisym :
  ∀ a b, Z.sgn (localeCompare b a) = - Z.sgn (localeCompare a b).
Hypothesis localeCompare_trans :
  ∀ a b c, localeCompare a b ≤ 0 → localeCompare b c ≤ 0 → localeCompare a c ≤ 0.

Lemma compareVolcanoes_total (a b : Volcano.t) :
  0 < compareVolcanoes localeCompare a b → compareVolcanoes localeCompare b a ≤ 0.
Proof.
  unfold compareVolcanoes.
  pose proof (localeCompare_antisym (Volcano.name a) (Volcano.name b)) as Hs.
  pose proof (Z.sgn_spec (localeCompare (Volcano.name a) (Volcano.name b))).
  pose proof (Z.sgn_spec (localeCompare (Volcano.name b) (Volcano.name a))).
  repeat match goal with |- context [?x =? 0] => destruct (Z.eqb_spec x 0) end;
    simpl; lia.
Qed.

Lemma compareVolcanoes_trans (a b c : Volcano.t) :
  compareVolcanoes localeCompare a b ≤ 0 →
  compareVolcanoes localeCompare b c ≤ 0 →
  compareVolcanoes localeCompare a c ≤ 0.
Proof.
  rewrite !compareVolcanoes_le. unfold volcanoLe.
  intros [H1|[H1 H1']] [H2|[H2 H2']]; [left; lia..|].
  right. split; [lia|]. by eapply localeCompare_trans.
Qed.

(** C4. The list of a delivered catalog is sorted ascending by
    (statusPriority, name), every entry being at most every later one in
    the order of the specification; it is a rearrangement of the records
    of the retained features; and an erupting volcano stands before every
    normal one, whatever the names. *)
Theorem fetchVolcanoData_sorted (nowEruptions status : Z)
    (eruptionsFeed : FetchOutcome GVPEruptionsResponse.t)
    (features : list GVPFeature.t) (w : World) :
  ∃ volcanoes parsed w',
    fetchVolcanoData localeCompare nowEruptions eruptionsFeed
      (catalogOf status features) w = (inr volcanoes, w')
    ∧ Array_map (parseGeoJSONFeature (activeEruptions w'))
        (List.filter hasRequiredFields features) = inr parsed
    ∧ volcanoes ≡ₚ parsed
    ∧ StronglySorted (volcanoLe localeCompare) volcanoes
    ∧ (∀ i j a b,
         volcanoes !! i = Some a → volcanoes !! j = Some b →
         Volcano.status a = erupting → Volcano.status b = normal →
         (i < j)%nat).
Proof.
  destruct (fetchVolcanoData_success localeCompare nowEruptions eruptionsFeed
              status features w) as (s & vs & w' & Hvs & Hrun & _ & <-).
  exists (Array_sort (compareVolcanoes localeCompare) vs), vs, w'.
  split; [exact Hrun|]. split; [exact Hvs|].
  split; [apply Array_sort_Permutation|].
  assert (StronglySorted (volcanoLe localeCompare)
            (Array_sort (compareVolcanoes localeCompare) vs)) as Hsorted.
  { eapply StronglySorted_mono; [apply compareVolcanoes_le|].
    apply Array_sort_StronglySorted;
      [apply compareVolcanoes_total | apply compareVolcanoes_trans]. }
  split; [exact Hsorted|].
  intros i j a b Hi Hj Ha Hb.
  destruct (Nat.lt_trichotomy i j) as [?|[->|Hji]]; [done| |].
  - rewrite Hi in Hj. injection Hj as ->. congruence.
  - pose proof (StronglySorted_lookup _ _ Hsorted j i b a Hji Hj Hi) as Hle.
    unfold volcanoLe in Hle. rewrite Ha, Hb in Hle. simpl in Hle. lia.
Qed.
End Claims.

(** Zeta (normal) delivered before Alpha (erupting), in code unit order. *)
Lemma fetchVolcanoData_sorted_witness :
  let features := [sampleFeature 1 "Zeta"; sampleFeature 300150 "Alpha"] in
  let feed := eruptionsOf [sampleEruption 300150 "Alpha"] in
  ∃ volcanoes parsed w',
    fetchVolcanoData codeUnitCompare 0 feed (catalogOf 200 features) initialWorld
      = (inr volcanoes, w')
    ∧ Array_map (parseGeoJSONFeature (activeEruptions w'))
        (List.filter hasRequiredFields features) = inr parsed
    ∧ volcanoes ≡ₚ parsed
    ∧ StronglySorted (volcanoLe codeUnitCompare) volcanoes
    ∧ (∀ i j a b,
         volcanoes !! i = Some a → volcanoes !! j = Some b →
         Volcano.status a = erupting → Volcano.status b = normal →
         (i < j)%nat).
Proof.
  intros features feed.
  exact (fetchVolcanoData_sorted codeUnitCompare codeUnitCompare_antisym
           codeUnitCompare_trans 0 200 feed features initialWorld).
Defined.

Example fetchVolcanoData_sorted_run :
  (λ r, match r.1 with
        | inr volcanoes => (λ v, (Volcano.name v, Volcano.status v)) <$> volcanoes
        | inl _ => []
        end)
    (fetchVolcanoData codeUnitCompare 0
       (eruptionsOf [sampleEruption 300150 "Alpha"])
       (catalogOf 200 [sampleFeature 1 "Zeta"; sampleFeature 263250 "Merapi";
                       sampleFeature 300150 "Alpha"; sampleFeature 2 "Beta"])
       initialWorld)
  = [("Alpha", erupting); ("Merapi", warning); ("Beta", normal); ("Zeta", normal)].
Proof. vm_compute. reflexivity. Qed.

(** C7, as the claim states it, fails: a delivered catalog with two
    features of number 263250 gives two entries with the id "263250". *)
Lemma fetchVolcanoData_duplicate_ids :
  ∃ volcanoes w',
    fetchVolcanoData codeUnitCompare 0 Rejected
      (catalogOf 200 [sampleFeature 263250 "Merapi";
                      sampleFeature 263250 "Merapi (summit)"])
      initialWorld = (inr volcanoes, w')
    ∧ Volcano.id <$> volcanoes = ["263250"; "263250"]
    ∧ ¬ NoDup (Volcano.id <$> volcanoes).
Proof.
  eexists _, _. split; [vm_compute; reflexivity|]. split; [reflexivity|].
  intros [Hnin _]%NoDup_cons. apply Hnin. apply list_elem_of_here.
Qed.

(** C7, amended. For every delivered catalog, with or without equal
    numbers, the list holds exactly one record per retained feature: it is
    a rearrangement of the records of the retained features, none merged
    and none dropped, and the id of each record is the number of its
    feature. Hence no two entries of the list share an id exactly when
    the retained features carry pairwise distinct numbers. *)
Theorem fetchVolcanoData_ids_distinct (localeCompare : string → string → Z)
    (nowEruptions status : Z)
    (eruptionsFeed : FetchOutcome GVPEruptionsResponse.t)
    (features : list GVPFeature.t) (w : World) :
  ∃ volcanoes parsed w',
    fetchVolcanoData localeCompare nowEruptions eruptionsFeed
      (catalogOf status features) w = (inr volcanoes, w')
    ∧ Array_map (parseGeoJSONFeature (activeEruptions w'))
        (List.filter hasRequiredFields features) = inr parsed
    ∧ volcanoes ≡ₚ parsed
    ∧ Volcano.id <$> parsed = String_of <$> retainedNumbers features
    ∧ length volcanoes = length (List.filter hasRequiredFields features)
    ∧ Volcano.id <$> volcanoes ≡ₚ String_of <$> retainedNumbers features
    ∧ (NoDup (Volcano.id <$> volcanoes) ↔ NoDup (retainedNumbers features)).
Proof.
  destruct (fetchVolcanoData_success localeCompare nowEruptions eruptionsFeed
              status features w) as (s & vs & w' & Hvs & Hrun & _ & Hae).
  destruct (Array_map_retained s features) as (vs' & Hvs' & Hids & Hlen & _).
  rewrite Hvs in Hvs'. injection Hvs' as <-.
  pose proof (Array_sort_Permutation (compareVolcanoes localeCompare) vs) as Hperm.
  exists (Array_sort (compareVolcanoes localeCompare) vs), vs, w'.
  split; [exact Hrun|]. split; [by rewrite Hae|]. split; [exact Hperm|].
  split; [exact Hids|]. split; [by rewrite Hperm|].
  rewrite Hperm, Hids. split; [done|].
  apply NoDup_fmap. intros m n. apply String_of_inj.
Qed.

(** Three features, one of them without geometry, numbers 1 and 300150;
    and Merapi delivered twice. *)
Lemma fetchVolcanoData_ids_distinct_witness :
  let features := [sampleFeature 1 "Zeta"; sampleFeatureNoGeometry;
                   sampleFeature 300150 "Alpha"] in
  let twice := [sampleFeature 263250 "Merapi"; sampleFeature 263250 "Merapi"] in
  (∃ volcanoes w',
     fetchVolcanoData codeUnitCompare 0 Rejected (catalogOf 200 features)
       initialWorld = (inr volcanoes, w')
     ∧ length volcanoes = 2%nat
     ∧ Volcano.id <$> volcanoes ≡ₚ ["1"; "300150"]
     ∧ NoDup (Volcano.id <$> volcanoes))
  ∧ (∃ volcanoes w',
       fetchVolcanoData codeUnitCompare 0 Rejected (catalogOf 200 twice)
         initialWorld = (inr volcanoes, w')
       ∧ length volcanoes = 2%nat
       ∧ Volcano.id <$> volcanoes ≡ₚ ["263250"; "263250"]).
Proof.
  intros features twice. split.
  - destruct (fetchVolcanoData_ids_distinct codeUnitCompare 0 200 Rejected features
                initialWorld)
      as (volcanoes & parsed & w' & Hrun & _ & _ & _ & Hlen & Hids & Hnd).
    exists volcanoes, w'. split; [exact Hrun|]. split; [exact Hlen|].
    split; [exact Hids|]. apply Hnd.
    apply (bool_decide_unpack _). vm_compute. reflexivity.
  - destruct (fetchVolcanoData_ids_distinct codeUnitCompare 0 200 Rejected twice
                initialWorld)
      as (volcanoes & parsed & w' & Hrun & _ & _ & _ & Hlen & Hids & _).
    exists volcanoes, w'. split; [exact Hrun|]. split; [exact Hlen | exact Hids].
Defined.

(** C8. A catalog feature that lacks geometry, coordinates, properties or
    a name is left out and the request still succeeds: with or without it
    the delivered catalog gives the same list, one record per retained
    feature; and the collection made of such a feature and one well-formed
    feature gives the one-element list of the record of the latter. *)
Theorem malformed_feature_excluded (localeCompare : string → string → Z)
    (nowEruptions status : Z)
    (eruptionsFeed : FetchOutcome GVPEruptionsResponse.t)
    (bad : GVPFeature.t) (w : World) :
  missingRequired bad →
  (∀ before after,
     ∃ volcanoes w',
       fetchVolcanoData localeCompare nowEruptions eruptionsFeed
         (catalogOf status (before ++ bad :: after)) w = (inr volcanoes, w')
       ∧ fetchVolcanoData localeCompare nowEruptions eruptionsFeed
           (catalogOf status (before ++ after)) w = (inr volcanoes, w')
       ∧ length volcanoes
         = length (List.filter hasRequiredFields (before ++ after)))
  ∧ (∀ good, wellFormed good →
       ∃ v w',
         fetchVolcanoData localeCompare nowEruptions eruptionsFeed
           (catalogOf status [bad; good]) w = (inr [v], w')
         ∧ parseGeoJSONFeature (activeEruptions w') good = inr v).
Proof.
  intros Hbad%hasRequiredFields_missing. split.
  - intros before after.
    destruct (fetchVolcanoData_success localeCompare nowEruptions eruptionsFeed
                status (before ++ after) w) as (s & vs & w' & Hvs & Hrun & _).
    destruct (Array_map_retained s (before ++ after)) as (vs' & Hvs' & _ & Hlen & _).
    rewrite Hvs in Hvs'. injection Hvs' as <-.
    eexists _, _. split; [|split; [exact Hrun|]].
    + rewrite <- Hrun. apply fetchVolcanoData_filter.
      rewrite !List.filter_app. simpl. by rewrite Hbad.
    + by rewrite Array_sort_Permutation.
  - intros good Hgood%hasRequiredFields_wellFormed.
    destruct (fetchVolcanoData_success localeCompare nowEruptions eruptionsFeed
                status [bad; good] w) as (s & vs & w' & Hvs & Hrun & _ & Hae).
    simpl in Hvs. rewrite Hbad, Hgood in Hvs. simpl in Hvs.
    destruct (parseGeoJSONFeature_retained s good Hgood) as (v & _ & Hv & _).
    rewrite Hv in Hvs. injection Hvs as <-.
    exists v, w'. by rewrite Hae.
Qed.

(** The feature without geometry next to Merapi. *)
Lemma malformed_feature_excluded_witness :
  ∃ v w',
    fetchVolcanoData codeUnitCompare 0 Rejected
      (catalogOf 200 [sampleFeatureNoGeometry; sampleFeature 263250 "Merapi"])
      initialWorld = (inr [v], w')
    ∧ parseGeoJSONFeature (activeEruptions w') (sampleFeature 263250 "Merapi")
      = inr v.
Proof.
  apply (malformed_feature_excluded codeUnitCompare 0 200 Rejected
           sampleFeatureNoGeometry initialWorld).
  - left. reflexivity.
  - eexists _, _, _, _. repeat split. discriminate.
Defined.

(** C10. A record made from a catalog feature carries no [vei], whatever
    the eruption snapshot holds for that volcano; so a record with a [vei]
    in a list returned by [fetchVolcanoData] is one of the fallback
    records, all five of which carry one. *)
Theorem catalog_records_carry_no_vei (localeCompare : string → string → Z) :
  (∀ ae f v, parseGeoJSONFeature ae f = inr v → Volcano.vei v = None)
  ∧ (∀ nowEruptions eruptionsFeed catalogFeed w volcanoes w' v,
       fetchVolcanoData localeCompare nowEruptions eruptionsFeed catalogFeed w
         = (inr volcanoes, w') →
       v ∈ volcanoes → is_Some (Volcano.vei v) →
       v ∈ getFallbackVolcanoData)
  ∧ Forall (λ v, is_Some (Volcano.vei v)) getFallbackVolcanoData.
Proof.
  split; [apply parseGeoJSONFeature_vei|]. split; [|by repeat constructor].
  intros nowE eFeed cFeed w volcanoes w' v Hrun Hin [n Hn].
  destruct (catalogFeedFails cFeed) eqn:Hfail.
  - destruct (fetchVolcanoData_failure localeCompare nowE eFeed cFeed w Hfail)
      as (w1 & Hrun' & _).
    rewrite Hrun in Hrun'. by injection Hrun' as -> _.
  - apply catalogFeedFails_false in Hfail as (status & features & ->).
    destruct (fetchVolcanoData_success localeCompare nowE eFeed status features w)
      as (s & vs & w1 & Hvs & Hrun' & _).
    rewrite Hrun in Hrun'. injection Hrun' as -> _.
    rewrite Array_sort_Permutation in Hin.
    apply Array_map_vei in Hvs. rewrite Forall_forall in Hvs.
    rewrite (Hvs v Hin) in Hn. done.
Qed.

(** The feed reports index 3 for Alpha; its catalog record has none. *)
Example catalog_records_carry_no_vei_run :
  (λ r, match r.1 with
        | inr volcanoes =>
            (λ v, (Volcano.id v, Volcano.status v, Volcano.vei v)) <$> volcanoes
        | inl _ => []
        end)
    (fetchVolcanoData codeUnitCompare 0
       (eruptionsOf [sampleEruption 300150 "Alpha"])
       (catalogOf 200 [sampleFeature 300150 "Alpha"]) initialWorld)
  = [("300150", erupting, None)].
Proof. vm_compute. reflexivity. Qed.

(* ===================================================================== *)
(** ** Further properties: the eruption feed cache and its readers *)
(* ===================================================================== *)

Lemma eruptionCacheStale_fresh (now : Z) (w : World) :
  eruptionCacheStale now w → eruptionCache_fresh now (eruptionCache w) = None.
Proof.
  intros [->|(c & -> & Hage)]; [done|]. unfold eruptionCache_fresh.
  destruct (Z.ltb_spec (now - EruptionCache.timestamp c) ERUPTION_CACHE_DURATION);
    [lia|done].
Qed.

Lemma eruptionCache_fresh_young (now : Z) (cache : option EruptionCache.t)
    (c : EruptionCache.t) :
  cache = Some c → now - EruptionCache.timestamp c < ERUPTION_CACHE_DURATION →
  eruptionCache_fresh now cache = Some c.
Proof.
  intros -> Hage. unfold eruptionCache_fresh.
  destruct (Z.ltb_spec (now - EruptionCache.timestamp c) ERUPTION_CACHE_DURATION);
    [done|lia].
Qed.

(** Past the freshness test exactly one request is made, whatever comes
    back, and only the eruption cache may change. *)
Lemma fetchActiveEruptions_refetch (now : Z)
    (feed : FetchOutcome GVPEruptionsResponse.t) (w : World) :
  eruptionCache_fresh now (eruptionCache w) = None →
  ∃ snapshot w',
    fetchActiveEruptions now feed w = (inr snapshot, w')
    ∧ requests w' = (requests w ++ [GVP_ERUPTIONS_URL])%list
    ∧ cachedData w' = cachedData w
    ∧ activeEruptions w' = activeEruptions w.
Proof.
  intros Hfresh. destruct (eruptionsFeedFails feed) eqn:Hfail.
  - eexists _, _. split; [by apply fetchActiveEruptions_failure|done].
  - destruct feed as [|[] status [|[[features|]]]]; simpl in Hfail; try done.
    apply features_all_records in Hfail as (records & ->).
    destruct (fetchActiveEruptions_success now status records w Hfresh)
      as (m & _ & ->).
    by eexists _, _.
Qed.

(** The entries that the loop appends: each under the identifier it
    carries, and in the order of the continuing records of the feed. *)
Lemma collectEruptions_entries (records : list GVPEruption.t) :
  ∀ acc, ∃ tail,
    collectEruptions (featureOf <$> records) acc = inr (acc ++ tail)%list
    ∧ tail.*2 `sublist_of` (toActiveEruption <$> List.filter continuing records)
    ∧ Forall (λ e, e.1 = ActiveEruption.volcanoId e.2) tail.
Proof.
  induction records as [|r records IH]; intros acc.
  { exists []. by rewrite app_nil_r. }
  cbn [fmap list_fmap collectEruptions featureOf EruptionFeature.properties
       List.filter].
  fold (continuing r).
  set (id0 := String_of (GVPEruption.VolcanoNumber r)).
  destruct (continuing r) eqn:Hc.
  - destruct (Map.has acc id0) eqn:Hhas; cbn [negb].
    + destruct (IH acc) as (tail & Hrun & Hsub & Hkeys).
      exists tail. split; [exact Hrun|]. split; [|exact Hkeys].
      by apply sublist_cons.
    + rewrite Map_set_fresh by done.
      destruct (IH (acc ++ [(id0, toActiveEruption r)])%list)
        as (tail & Hrun & Hsub & Hkeys).
      exists ((id0, toActiveEruption r) :: tail).
      split; [rewrite <- app_assoc in Hrun; exact Hrun|].
      split; [by apply sublist_skip | by constructor].
  - destruct (IH acc) as (tail & Hrun & Hsub & Hkeys). by exists tail.
Qed.

(** X1. A call made while the cache entry is younger than 30 minutes
    returns the entry's map and leaves the whole state, the request log
    included, as it was; a call made with no entry, or with an entry that
    is 30 minutes old or more, issues exactly one request to the
    eruption feed, whatever the feed answers. *)
Theorem fetchActiveEruptions_requests (now : Z)
    (feed : FetchOutcome GVPEruptionsResponse.t) (w : World) :
  (∀ c, eruptionCache w = Some c →
        now - EruptionCache.timestamp c < ERUPTION_CACHE_DURATION →
        fetchActiveEruptions now feed w = (inr (EruptionCache.eruptions c), w))
  ∧ (eruptionCacheStale now w →
     requests (fetchActiveEruptions now feed w).2
     = (requests w ++ [GVP_ERUPTIONS_URL])%list).
Proof.
  split.
  - intros c Hc Hage. apply fetchActiveEruptions_hit.
    by apply eruptionCache_fresh_young.
  - intros Hstale%eruptionCacheStale_fresh.
    destruct (fetchActiveEruptions_refetch now feed w Hstale)
      as (s & w' & -> & Hreq & _).
    exact Hreq.
Qed.

(** An entry stamped 0: served at 29:59.999, refetched at 30:00.000. *)
Lemma fetchActiveEruptions_requests_witness :
  let w := {| eruptionCache := Some {| EruptionCache.eruptions := Map.empty;
                                       EruptionCache.timestamp := 0 |};
              cachedData := None; activeEruptions := Map.empty;
              requests := [] |} in
  fetchActiveEruptions (ERUPTION_CACHE_DURATION - 1) Rejected w = (inr Map.empty, w)
  ∧ requests (fetchActiveEruptions ERUPTION_CACHE_DURATION Rejected w).2
    = [GVP_ERUPTIONS_URL].
Proof.
  intros w. split.
  - apply (proj1 (fetchActiveEruptions_requests (ERUPTION_CACHE_DURATION - 1)
                    Rejected w)
             {| EruptionCache.eruptions := Map.empty;
                EruptionCache.timestamp := 0 |}); [reflexivity|].
    vm_compute. reflexivity.
  - apply (proj2 (fetchActiveEruptions_requests ERUPTION_CACHE_DURATION Rejected w)).
    right. eexists. split; [reflexivity|]. vm_compute. discriminate.
Defined.

(** X2. After a call that refreshed the snapshot from a delivered feed at
    instant [now1], every call made less than 30 minutes after [now1]
    returns that same snapshot without a request and without changing the
    state, whatever the feed would answer then. *)
Theorem fetchActiveEruptions_reuses_snapshot (now1 status now2 : Z)
    (records : list GVPEruption.t)
    (feed2 : FetchOutcome GVPEruptionsResponse.t) (w : World) :
  eruptionCacheStale now1 w →
  now2 - now1 < ERUPTION_CACHE_DURATION →
  ∃ snapshot w1,
    fetchActiveEruptions now1 (eruptionsDelivered status records) w
      = (inr snapshot, w1)
    ∧ fetchActiveEruptions now2 feed2 w1 = (inr snapshot, w1).
Proof.
  intros Hstale%eruptionCacheStale_fresh Hage.
  destruct (fetchActiveEruptions_success now1 status records w Hstale)
    as (m & _ & Hrun).
  eexists _, _. split; [exact Hrun|].
  apply (fetchActiveEruptions_hit now2 feed2 _
           {| EruptionCache.eruptions := m; EruptionCache.timestamp := now1 |}).
  by apply eruptionCache_fresh_young.
Qed.

(** Refreshed at minute 0, read again at minute 10 while the feed is down. *)
Lemma fetchActiveEruptions_reuses_snapshot_witness :
  ∃ snapshot w1,
    fetchActiveEruptions 0
      (eruptionsDelivered 200 [sampleEruption 300150 "Kilauea"]) initialWorld
      = (inr snapshot, w1)
    ∧ fetchActiveEruptions 600000 Rejected w1 = (inr snapshot, w1).
Proof.
  apply (fetchActiveEruptions_reuses_snapshot 0 200 600000
           [sampleEruption 300150 "Kilauea"] Rejected initialWorld).
  - left. reflexivity.
  - vm_compute. reflexivity.
Defined.

(** X3. The snapshot built from a delivered feed stores every entry under
    the identifier that the entry carries, has pairwise distinct keys, lists
    its entries in the order in which their records were delivered, and
    has at most as many entries as the feed has continuing records. *)
Theorem fetchActiveEruptions_snapshot_shape (now status : Z)
    (records : list GVPEruption.t) (w : World) :
  eruptionCacheStale now w →
  ∃ snapshot w',
    fetchActiveEruptions now (eruptionsDelivered status records) w
      = (inr snapshot, w')
    ∧ Forall (λ e, e.1 = ActiveEruption.volcanoId e.2) snapshot
    ∧ NoDup (Map.keys snapshot)
    ∧ Map.values snapshot
        `sublist_of` (toActiveEruption <$> List.filter continuing records)
    ∧ (Map.size snapshot ≤ length (List.filter continuing records))%nat.
Proof.
  intros Hstale%eruptionCacheStale_fresh.
  destruct (fetchActiveEruptions_success now status records w Hstale)
    as (m & Hm & Hrun).
  destruct (collectEruptions_records records Map.empty) as (m1 & Hm1 & _ & Hnd).
  destruct (collectEruptions_entries records Map.empty) as (tail & Hm2 & Hsub & Hk).
  rewrite Hm in Hm1, Hm2. injection Hm1 as <-. injection Hm2 as ->.
  eexists _, _. split; [exact Hrun|]. simpl.
  split; [exact Hk|]. split; [apply Hnd, NoDup_nil_2|].
  split; [exact Hsub|].
  apply sublist_length in Hsub. unfold Map.size.
  by rewrite length_fmap in Hsub; rewrite length_fmap in Hsub.
Qed.

(** Etna, Kilauea twice and a closed record of Stromboli. *)
Lemma fetchActiveEruptions_snapshot_shape_witness :
  let closed := {| GVPEruption.VolcanoNumber := 211040;
                   GVPEruption.VolcanoName := "Stromboli";
                   GVPEruption.ContinuingEruption := "False";
                   GVPEruption.StartDate := None;
                   GVPEruption.StartDateYear := 1934;
                   GVPEruption.ExplosivityIndexMax := None |} in
  let records := [sampleEruption 211060 "Etna"; sampleEruption 300150 "Kilauea";
                  closed; sampleEruption 300150 "Kilauea"] in
  ∃ snapshot w',
    fetchActiveEruptions 0 (eruptionsDelivered 200 records) initialWorld
      = (inr snapshot, w')
    ∧ Forall (λ e, e.1 = ActiveEruption.volcanoId e.2) snapshot
    ∧ NoDup (Map.keys snapshot)
    ∧ Map.values snapshot
        `sublist_of` (toActiveEruption <$> List.filter continuing records)
    ∧ (Map.size snapshot ≤ 3)%nat.
Proof.
  intros closed records.
  apply (fetchActiveEruptions_snapshot_shape 0 200 records initialWorld).
  left. reflexivity.
Defined.

(** Every call returns a map; a failed one returns the last known one. *)
Lemma fetchActiveEruptions_last_known (now : Z)
    (feed : FetchOutcome GVPEruptionsResponse.t) (w : World) :
  ∃ snapshot w',
    fetchActiveEruptions now feed w = (inr snapshot, w')
    ∧ (eruptionsFeedFails feed = true →
       snapshot = lastKnownEruptions (eruptionCache w)).
Proof.
  destruct (eruptionCache_fresh now (eruptionCache w)) as [c|] eqn:Hfresh.
  - exists (EruptionCache.eruptions c), w.
    split; [by apply fetchActiveEruptions_hit|].
    intros _. by rewrite (eruptionCache_fresh_Some _ _ _ Hfresh).
  - destruct (eruptionsFeedFails feed) eqn:Hfail.
    + eexists _, _. split; [by apply fetchActiveEruptions_failure|done].
    + destruct (fetchActiveEruptions_total now feed w) as (s & w' & -> & _).
      by exists s, w'.
Qed.

Lemma firstContinuing_is_Some (id : string) (records : list GVPEruption.t) :
  is_Some (firstContinuing id records)
  ↔ ∃ r, r ∈ records ∧ GVPEruption.ContinuingEruption r = "True"
         ∧ String_of (GVPEruption.VolcanoNumber r) = id.
Proof.
  unfold firstContinuing. split.
  - intros [r Hr]. apply find_some in Hr as [Hin [Hc Hid]%andb_true_iff].
    exists r. split; [by apply list_elem_of_In|].
    split; [by apply String.eqb_eq in Hc | by apply String.eqb_eq in Hid].
  - intros (r & Hin%list_elem_of_In & Hc & Hid).
    destruct (find _ records) as [r'|] eqn:Hfind; [by eexists|].
    apply (find_none _ _ Hfind) in Hin. unfold continuing in Hin.
    rewrite Hc, Hid, String.eqb_refl in Hin. simpl in Hin.
    by rewrite String.eqb_refl in Hin.
Qed.

(** What a refresh from a delivered feed returns and stores. *)
Lemma fetchActiveEruptions_delivered (now status : Z)
    (records : list GVPEruption.t) (w : World) :
  eruptionCacheStale now w →
  ∃ snapshot w',
    fetchActiveEruptions now (eruptionsDelivered status records) w
      = (inr snapshot, w')
    ∧ (∀ id, Map.get snapshot id = toActiveEruption <$> firstContinuing id records)
    ∧ eruptionCache w' = Some {| EruptionCache.eruptions := snapshot;
                                 EruptionCache.timestamp := now |}
    ∧ cachedData w' = cachedData w
    ∧ activeEruptions w' = activeEruptions w
    ∧ requests w' = (requests w ++ [GVP_ERUPTIONS_URL])%list.
Proof.
  intros Hstale%eruptionCacheStale_fresh.
  destruct (fetchActiveEruptions_success now status records w Hstale)
    as (m & Hm & Hrun).
  destruct (collectEruptions_records records Map.empty) as (m1 & Hm1 & Hget & _).
  rewrite Hm in Hm1. injection Hm1 as <-.
  eexists _, _. split; [exact Hrun|]. by split; [exact Hget|].
Qed.

(** X4. With a delivered feed and no fresh cache, [isVolcanoErupting]
    answers true exactly for the identifiers that have a record flagged
    "True" in the feed, and [getEruptionInfo] gives the entry of the first
    such record, null when there is none; both leave the same state. *)
Theorem point_queries_delivered (now status : Z)
    (records : list GVPEruption.t) (volcanoId : string) (w : World) :
  eruptionCacheStale now w →
  ∃ answer w',
    isVolcanoErupting now (eruptionsDelivered status records) volcanoId w
      = (inr answer, w')
    ∧ (answer = true
       ↔ ∃ r, r ∈ records ∧ GVPEruption.ContinuingEruption r = "True"
              ∧ String_of (GVPEruption.VolcanoNumber r) = volcanoId)
    ∧ getEruptionInfo now (eruptionsDelivered status records) volcanoId w
      = (inr (toActiveEruption <$> firstContinuing volcanoId records), w').
Proof.
  intros Hstale.
  destruct (fetchActiveEruptions_delivered now status records w Hstale)
    as (m & w' & Hrun & Hget & _).
  exists (Map.has m volcanoId), w'.
  unfold isVolcanoErupting, getEruptionInfo, bind. rewrite Hrun. cbn [ret].
  split; [done|]. split; [|by rewrite Hget].
  rewrite <- firstContinuing_is_Some. unfold Map.has. rewrite Hget.
  destruct (firstContinuing volcanoId records); simpl;
    [split; [by eexists | done] | split; [done | by intros [? ?]]].
Qed.

(** Kilauea continuing, Etna not in the feed. *)
Lemma point_queries_delivered_witness :
  let records := [sampleEruption 300150 "Kilauea"] in
  (∃ w', isVolcanoErupting 0 (eruptionsDelivered 200 records) "300150" initialWorld
           = (inr true, w')
         ∧ getEruptionInfo 0 (eruptionsDelivered 200 records) "300150" initialWorld
           = (inr (Some (toActiveEruption (sampleEruption 300150 "Kilauea"))), w'))
  ∧ (∃ answer w',
       isVolcanoErupting 0 (eruptionsDelivered 200 records) "211060" initialWorld
         = (inr answer, w')
       ∧ getEruptionInfo 0 (eruptionsDelivered 200 records) "211060" initialWorld
         = (inr None, w')).
Proof.
  intros records. split.
  - destruct (point_queries_delivered 0 200 records "300150" initialWorld
                (or_introl eq_refl)) as (answer & w' & Hrun & Hiff & Hinfo).
    exists w'. split; [|exact Hinfo].
    rewrite Hrun. f_equal. f_equal. apply Hiff.
    exists (sampleEruption 300150 "Kilauea").
    split; [apply list_elem_of_here | split; reflexivity].
  - destruct (point_queries_delivered 0 200 records "211060" initialWorld
                (or_introl eq_refl)) as (answer & w' & Hrun & _ & Hinfo).
    exists answer, w'. split; [exact Hrun | exact Hinfo].
Defined.

(** X5. When the request fails, [isVolcanoErupting] and [getEruptionInfo]
    do not raise: they answer from the last snapshot the cache holds,
    whatever its age, and with false and null for every identifier when
    the cache holds none; the cache entry stays as it was. *)
Theorem point_queries_fail_open (now : Z)
    (feed : FetchOutcome GVPEruptionsResponse.t) (volcanoId : string) (w : World) :
  eruptionsFeedFails feed = true →
  ∃ w',
    isVolcanoErupting now feed volcanoId w
      = (inr (Map.has (lastKnownEruptions (eruptionCache w)) volcanoId), w')
    ∧ getEruptionInfo now feed volcanoId w
      = (inr (Map.get (lastKnownEruptions (eruptionCache w)) volcanoId), w')
    ∧ eruptionCache w' = eruptionCache w
    ∧ (eruptionCache w = None →
       isVolcanoErupting now feed volcanoId w = (inr false, w')
       ∧ getEruptionInfo now feed volcanoId w = (inr None, w')).
Proof.
  intros Hfail. unfold isVolcanoErupting, getEruptionInfo, bind.
  destruct (eruptionCache_fresh now (eruptionCache w)) as [c|] eqn:Hfresh.
  - rewrite (fetchActiveEruptions_hit now feed w c Hfresh).
    pose proof (eruptionCache_fresh_Some _ _ _ Hfresh) as Hc.
    exists w. rewrite Hc. cbn [ret lastKnownEruptions]. by repeat split.
  - rewrite (fetchActiveEruptions_failure now feed w Hfresh Hfail).
    eexists. cbn [ret]. do 3 (split; [done|]). by intros ->.
Qed.

(** A 502 with an empty cache, and with a two-hour-old snapshot. *)
Lemma point_queries_fail_open_witness :
  let old := {| EruptionCache.eruptions :=
                  [("300150", toActiveEruption (sampleEruption 300150 "Kilauea"))];
                EruptionCache.timestamp := 0 |} in
  let w := {| eruptionCache := Some old; cachedData := None;
              activeEruptions := Map.empty; requests := [] |} in
  (∃ w', isVolcanoErupting 7200000 (Responded false 502 NotJson) "300150" w
         = (inr true, w'))
  ∧ (∃ w', isVolcanoErupting 7200000 (Responded false 502 NotJson) "300150"
             initialWorld = (inr false, w')).
Proof.
  intros old w. split.
  - destruct (point_queries_fail_open 7200000 (Responded false 502 NotJson)
                "300150" w eq_refl) as (w' & Hrun & _).
    exists w'. exact Hrun.
  - destruct (point_queries_fail_open 7200000 (Responded false 502 NotJson)
                "300150" initialWorld eq_refl) as (w' & _ & _ & _ & Hnone).
    exists w'. exact (proj1 (Hnone eq_refl)).
Defined.

(** X6. With a delivered feed and no fresh cache the status report is
    sent with status 200; its rows come from continuing records of the
    feed, in delivery order; no two rows share an id; an id has a row
    exactly when the feed has a record flagged "True" for it; and
    [eruptingCount] is the number of rows. *)
Theorem StatusRoute_report_delivered (nowEruptions nowResponse status : Z)
    (records : list GVPEruption.t) (w : World) :
  eruptionCacheStale nowEruptions w →
  ∃ report w',
    StatusRoute.GET nowEruptions nowResponse (eruptionsDelivered status records) w
      = (inr (NextResponse.mk 200 (StatusReport report)), w')
    ∧ StatusResponse.eruptingVolcanoes report
        `sublist_of` (statusRow <$> List.filter continuing records)
    ∧ NoDup (EruptingVolcano.id <$> StatusResponse.eruptingVolcanoes report)
    ∧ (∀ id, id ∈ (EruptingVolcano.id <$> StatusResponse.eruptingVolcanoes report)
             ↔ ∃ r, r ∈ records ∧ GVPEruption.ContinuingEruption r = "True"
                    ∧ String_of (GVPEruption.VolcanoNumber r) = id)
    ∧ StatusResponse.eruptingCount report
      = Z.of_nat (length (StatusResponse.eruptingVolcanoes report)).
Proof.
  intros Hstale%eruptionCacheStale_fresh.
  destruct (fetchActiveEruptions_success nowEruptions status records w Hstale)
    as (m & Hm & Hrun).
  destruct (collectEruptions_records records Map.empty) as (m1 & Hm1 & Hget & Hnd).
  destruct (collectEruptions_entries records Map.empty) as (tail & Hm2 & Hsub & Hk).
  rewrite Hm in Hm1, Hm2. injection Hm1 as <-. injection Hm2 as Hm2.
  simpl in Hm2. subst tail.
  specialize (Hnd (NoDup_nil_2 (A:=string))). cbn [Map.get Map.empty] in Hget.
  assert (EruptingVolcano.id <$>
            ((λ e, {| EruptingVolcano.id := ActiveEruption.volcanoId e;
                      EruptingVolcano.name := ActiveEruption.volcanoName e;
                      EruptingVolcano.startDate := ActiveEruption.startDate e |})
               <$> Map.values m) = Map.keys m) as Hids.
  { unfold Map.values, Map.keys. rewrite <- !list_fmap_compose.
    apply Forall_fmap_ext_1. eapply Forall_impl; [exact Hk|].
    intros [k e] Hke. simpl in *. congruence. }
  eexists _, _. split.
  { unfold StatusRoute.GET, try_catch, bind, eruptionsDelivered.
    rewrite Hrun. reflexivity. }
  cbn [StatusResponse.eruptingVolcanoes StatusResponse.eruptingCount].
  split.
  { replace (statusRow <$> List.filter continuing records)
      with ((λ e, {| EruptingVolcano.id := ActiveEruption.volcanoId e;
                     EruptingVolcano.name := ActiveEruption.volcanoName e;
                     EruptingVolcano.startDate := ActiveEruption.startDate e |})
              <$> (toActiveEruption <$> List.filter continuing records))
      by (rewrite <- list_fmap_compose; reflexivity).
    by apply fmap_sublist. }
  rewrite Hids. split; [exact Hnd|]. split.
  - intros id. rewrite <- firstContinuing_is_Some, <- Map_has_keys.
    unfold Map.has. rewrite Hget.
    destruct (firstContinuing id records); simpl;
      [split; [by eexists | done] | split; [done | by intros [? ?]]].
  - unfold Map.size, Map.values. by rewrite !length_fmap.
Qed.

(** Etna, Kilauea twice, and a closed record of Stromboli. *)
Lemma StatusRoute_report_delivered_witness :
  let closed := {| GVPEruption.VolcanoNumber := 211040;
                   GVPEruption.VolcanoName := "Stromboli";
                   GVPEruption.ContinuingEruption := "False";
                   GVPEruption.StartDate := None;
                   GVPEruption.StartDateYear := 1934;
                   GVPEruption.ExplosivityIndexMax := None |} in
  let records := [sampleEruption 211060 "Etna"; sampleEruption 300150 "Kilauea";
                  closed; sampleEruption 300150 "Kilauea"] in
  ∃ report w',
    StatusRoute.GET 0 1 (eruptionsDelivered 200 records) initialWorld
      = (inr (NextResponse.mk 200 (StatusReport report)), w')
    ∧ StatusResponse.eruptingVolcanoes report
        `sublist_of` (statusRow <$> List.filter continuing records)
    ∧ NoDup (EruptingVolcano.id <$> StatusResponse.eruptingVolcanoes report)
    ∧ (∀ id, id ∈ (EruptingVolcano.id <$> StatusResponse.eruptingVolcanoes report)
             ↔ ∃ r, r ∈ records ∧ GVPEruption.ContinuingEruption r = "True"
                    ∧ String_of (GVPEruption.VolcanoNumber r) = id)
    ∧ StatusResponse.eruptingCount report
      = Z.of_nat (length (StatusResponse.eruptingVolcanoes report)).
Proof.
  intros closed records.
  apply (StatusRoute_report_delivered 0 1 200 records initialWorld).
  left. reflexivity.
Defined.

Example StatusRoute_report_run :
  (StatusRoute.GET 0 1
     (eruptionsDelivered 200
        [sampleEruption 211060 "Etna"; sampleEruption 300150 "Kilauea";
         sampleEruption 300150 "Kilauea"])
     initialWorld).1
  = inr (NextResponse.mk 200
           (StatusReport
              {| StatusResponse.eruptingCount := 2;
                 StatusResponse.eruptingVolcanoes :=
                   [ {| EruptingVolcano.id := "211060";
                        EruptingVolcano.name := "Etna";
                        EruptingVolcano.startDate := Some "2024-12-23" |};
                     {| EruptingVolcano.id := "300150";
                        EruptingVolcano.name := "Kilauea";
                        EruptingVolcano.startDate := Some "2024-12-23" |} ];
                 StatusResponse.dataSource :=
                   "Smithsonian GVP E3WebApp_Eruptions1960";
                 StatusResponse.refreshInterval := "30 minutes";
                 StatusResponse.timestamp := 1 |})).
Proof. vm_compute. reflexivity. Qed.

(** X7. The status handler never sends its 500 body: for every state,
    clock and feed outcome it sends a report with status 200 whose
    [eruptingCount] is the number of rows listed; when the request fails
    and the cache holds nothing, the report has no rows and count 0. *)
Theorem StatusRoute_always_reports (nowEruptions nowResponse : Z)
    (feed : FetchOutcome GVPEruptionsResponse.t) (w : World) :
  ∃ report w',
    StatusRoute.GET nowEruptions nowResponse feed w
      = (inr (NextResponse.mk 200 (StatusReport report)), w')
    ∧ StatusResponse.eruptingCount report
      = Z.of_nat (length (StatusResponse.eruptingVolcanoes report))
    ∧ StatusResponse.timestamp report = nowResponse
    ∧ (eruptionsFeedFails feed = true → eruptionCache w = None →
       StatusResponse.eruptingVolcanoes report = []
       ∧ StatusResponse.eruptingCount report = 0).
Proof.
  destruct (fetchActiveEruptions_last_known nowEruptions feed w)
    as (m & w' & Hrun & Hfail).
  eexists _, _. split.
  { unfold StatusRoute.GET, try_catch, bind. rewrite Hrun. reflexivity. }
  cbn [StatusResponse.eruptingVolcanoes StatusResponse.eruptingCount
       StatusResponse.timestamp].
  split; [unfold Map.size, Map.values; by rewrite !length_fmap|].
  split; [done|]. intros Hf Hnone.
  rewrite (Hfail Hf), Hnone. done.
Qed.

(* ===================================================================== *)
(** ** Further properties: the catalog aggregation and its route *)
(* ===================================================================== *)

Lemma catalogCacheStale_fresh (now : Z) (w : World) :
  catalogCacheStale now w → cachedData_fresh now (cachedData w) = None.
Proof.
  intros [->|(c & -> & Hage)]; [done|]. unfold cachedData_fresh.
  destruct (Z.ltb_spec (now - CachedData.timestamp c) CACHE_DURATION); [lia|done].
Qed.

Lemma cachedData_fresh_young (now : Z) (cache : option CachedData.t)
    (c : CachedData.t) :
  cache = Some c → now - CachedData.timestamp c < CACHE_DURATION →
  cachedData_fresh now cache = Some c.
Proof.
  intros -> Hage. unfold cachedData_fresh.
  destruct (Z.ltb_spec (now - CachedData.timestamp c) CACHE_DURATION); [done|lia].
Qed.

Lemma cachedData_fresh_Some (now : Z) (cache : option CachedData.t)
    (c : CachedData.t) :
  cachedData_fresh now cache = Some c → cache = Some c.
Proof.
  unfold cachedData_fresh. destruct cache as [c'|]; [|done].
  by case_match; intros [= ->].
Qed.

Lemma or_else_nonempty (a b : string) : b ≠ "" → or_else a b ≠ "".
Proof.
  unfold or_else. destruct (truthy a) eqn:Ha; [|done].
  intros _. by apply truthy_true.
Qed.

Lemma determineStatus_erupting (ae : Map.t ActiveEruption.t) (id : string) :
  determineStatus ae id = erupting ↔ Map.has ae id = true.
Proof. unfold determineStatus. by repeat case_match. Qed.

(** What holds of the record of each feature holds of the mapped list. *)
Lemma Array_map_Forall (P : Volcano.t → Prop) (ae : Map.t ActiveEruption.t)
    (l : list GVPFeature.t) :
  (∀ f v, f ∈ l → parseGeoJSONFeature ae f = inr v → P v) →
  ∀ vs, Array_map (parseGeoJSONFeature ae) l = inr vs → Forall P vs.
Proof.
  induction l as [|f l IH]; simpl; intros HP vs.
  { intros [= <-]. constructor. }
  destruct (parseGeoJSONFeature ae f) as [e|v] eqn:Hv; [done|].
  destruct (Array_map (parseGeoJSONFeature ae) l) as [e|vs'] eqn:Hl; [done|].
  intros [= <-]. constructor.
  - eapply HP; [apply list_elem_of_here | exact Hv].
  - apply IH; [|done]. intros f' v' Hin. apply HP. by apply list_elem_of_further.
Qed.

Lemma parseGeoJSONFeature_status (ae : Map.t ActiveEruption.t) (f : GVPFeature.t)
    (v : Volcano.t) :
  parseGeoJSONFeature ae f = inr v →
  Volcano.status v = determineStatus ae (Volcano.id v).
Proof.
  unfold parseGeoJSONFeature. repeat case_match; try done; by intros [= <-].
Qed.

Lemma parseGeoJSONFeature_fields (ae : Map.t ActiveEruption.t) (f : GVPFeature.t)
    (v : Volcano.t) :
  hasRequiredFields f = true →
  parseGeoJSONFeature ae f = inr v →
  Volcano.name v ≠ "" ∧ Volcano.country v ≠ "" ∧ Volcano.region v ≠ ""
  ∧ Volcano.type v ≠ ""
  ∧ Volcano.lastEruption v ≠ Some "0"
  ∧ (is_Some (Volcano.description v) ↔ is_Some (Volcano.tectonicSetting v)).
Proof.
  intros (g & [lon lat] & p & n & Hg & Hc & Hp & Hn & Hne)%hasRequiredFields_wellFormed.
  unfold parseGeoJSONFeature. rewrite Hg, Hp, Hc, Hn. intros [= <-]. simpl.
  split; [done|]. do 3 (split; [by apply or_else_nonempty|]). split.
  - destruct (Properties.Last_Eruption_Year p) as [year|]; [|done].
    destruct (Z.eqb_spec year 0) as [|Hy]; [done|].
    intros [= Hs]. apply Hy. by apply String_of_inj.
  - by destruct (truthy (Properties.Tectonic_Setting p)).
Qed.

Section AggregationRuns.
Variable localeCompare : string → string → Z.

(** [fetchVolcanoData] after the eruption snapshot has been obtained:
    one catalog request, and either the fallback or the sorted records. *)
Lemma fetchVolcanoData_after (nowE : Z)
    (eFeed : FetchOutcome GVPEruptionsResponse.t)
    (cFeed : FetchOutcome GVPGeoJSON.t) (w w1 : World)
    (s : Map.t ActiveEruption.t) :
  fetchActiveEruptions nowE eFeed w = (inr s, w1) →
  ∃ volcanoes w',
    fetchVolcanoData localeCompare nowE eFeed cFeed w = (inr volcanoes, w')
    ∧ eruptionCache w' = eruptionCache w1
    ∧ cachedData w' = cachedData w1
    ∧ activeEruptions w' = s
    ∧ requests w' = (requests w1 ++ [GVP_GEOJSON_URL])%list
    ∧ (catalogFeedFails cFeed = true → volcanoes = getFallbackVolcanoData)
    ∧ (∀ status features, cFeed = catalogOf status features →
         ∃ vs, Array_map (parseGeoJSONFeature s)
                 (List.filter hasRequiredFields features) = inr vs
               ∧ volcanoes = Array_sort (compareVolcanoes localeCompare) vs).
Proof.
  intros Hrun. unfold fetchVolcanoData, try_catch, bind. rewrite Hrun. simpl.
  destruct cFeed as [|[] status [|[[features|]]]]; simpl;
    try (eexists _, _; do 6 (split; [done|]); by intros ?? [=]).
  unfold liftR. destruct (Array_map_retained s features) as (vs & Hvs & _).
  rewrite Hvs. eexists _, _. do 5 (split; [done|]). split; [done|].
  intros status' features' [= _ ->]. by exists vs.
Qed.

Lemma fetchVolcanoData_run (nowE : Z)
    (eFeed : FetchOutcome GVPEruptionsResponse.t)
    (cFeed : FetchOutcome GVPGeoJSON.t) (w : World) :
  ∃ volcanoes w',
    fetchVolcanoData localeCompare nowE eFeed cFeed w = (inr volcanoes, w').
Proof.
  destruct (fetchActiveEruptions_total nowE eFeed w) as (s & w1 & Hrun & _).
  destruct (fetchVolcanoData_after nowE eFeed cFeed w w1 s Hrun)
    as (volcanoes & w' & Hv & _).
  by exists volcanoes, w'.
Qed.

(** X8. After a [GET] that missed the cache at instant [now1], whatever
    its requests returned, every [GET] made less than six hours after
    [now1] sends the very same response ([lastUpdated] being [now1]),
    makes no request and leaves the state as it is. *)
Theorem GET_repeats_within_ttl (now1 nowE1 nowC1 now2 nowE2 nowC2 : Z)
    (eFeed1 eFeed2 : FetchOutcome GVPEruptionsResponse.t)
    (cFeed1 cFeed2 : FetchOutcome GVPGeoJSON.t) (w : World) :
  catalogCacheStale now1 w →
  now2 - now1 < CACHE_DURATION →
  ∃ response w1,
    GET localeCompare now1 nowE1 nowC1 eFeed1 cFeed1 w = (inr response, w1)
    ∧ GET localeCompare now2 nowE2 nowC2 eFeed2 cFeed2 w1 = (inr response, w1)
    ∧ VolcanoApiResponse.lastUpdated (NextResponse.body response) = now1.
Proof.
  intros Hstale%catalogCacheStale_fresh Hage.
  destruct (fetchVolcanoData_run nowE1 eFeed1 cFeed1 w) as (vs & w' & Hrun).
  eexists _, _. split; [by eapply GET_miss|]. split; [|done].
  apply (GET_hit localeCompare now2 nowE2 nowC2 eFeed2 cFeed2 _
           {| CachedData.volcanoes := vs; CachedData.timestamp := now1 |}).
  by apply cachedData_fresh_young.
Qed.

(** X9. [GET] never sends its 500 body: for every state, clock and
    outcome of the two requests it sends status 200 with [totalCount]
    equal to the number of volcanoes listed, and afterwards the catalog
    cache holds exactly the list and the instant that were sent. *)
Theorem GET_always_answers (now nowE nowC : Z)
    (eFeed : FetchOutcome GVPEruptionsResponse.t)
    (cFeed : FetchOutcome GVPGeoJSON.t) (w : World) :
  ∃ response w',
    GET localeCompare now nowE nowC eFeed cFeed w = (inr response, w')
    ∧ NextResponse.status response = 200
    ∧ VolcanoApiResponse.totalCount (NextResponse.body response)
      = Z.of_nat (length (VolcanoApiResponse.volcanoes (NextResponse.body response)))
    ∧ cachedData w'
      = Some {| CachedData.volcanoes :=
                  VolcanoApiResponse.volcanoes (NextResponse.body response);
                CachedData.timestamp :=
                  VolcanoApiResponse.lastUpdated (NextResponse.body response) |}.
Proof.
  destruct (cachedData_fresh now (cachedData w)) as [c|] eqn:Hfresh.
  - eexists _, _. split; [by apply GET_hit|]. simpl.
    do 2 (split; [done|]).
    rewrite (cachedData_fresh_Some _ _ _ Hfresh). by destruct c.
  - destruct (fetchVolcanoData_run nowE eFeed cFeed w) as (vs & w' & Hrun).
    eexists _, _. split; [by eapply GET_miss|]. done.
Qed.

(** X10. A [GET] served from a catalog entry younger than six hours makes
    no request and changes nothing. A [GET] that misses makes one catalog
    request, after one eruption request when the eruption cache holds
    nothing younger than 30 minutes, and alone otherwise; this whatever
    the requests return. *)
Theorem GET_requests (now nowE nowC : Z)
    (eFeed : FetchOutcome GVPEruptionsResponse.t)
    (cFeed : FetchOutcome GVPGeoJSON.t) (w : World) :
  (∀ c, cachedData w = Some c → now - CachedData.timestamp c < CACHE_DURATION →
        (GET localeCompare now nowE nowC eFeed cFeed w).2 = w)
  ∧ (catalogCacheStale now w →
     (eruptionCacheStale nowE w →
      requests (GET localeCompare now nowE nowC eFeed cFeed w).2
      = (requests w ++ [GVP_ERUPTIONS_URL; GVP_GEOJSON_URL])%list)
     ∧ (∀ e, eruptionCache w = Some e →
             nowE - EruptionCache.timestamp e < ERUPTION_CACHE_DURATION →
             requests (GET localeCompare now nowE nowC eFeed cFeed w).2
             = (requests w ++ [GVP_GEOJSON_URL])%list)).
Proof.
  split.
  - intros c Hc Hage.
    by rewrite (GET_hit localeCompare now nowE nowC eFeed cFeed w c
                  (cachedData_fresh_young _ _ _ Hc Hage)).
  - intros Hstale%catalogCacheStale_fresh. split.
    + intros He%eruptionCacheStale_fresh.
      destruct (fetchActiveEruptions_refetch nowE eFeed w He)
        as (s & w1 & Hrun & Hreq & _).
      destruct (fetchVolcanoData_after nowE eFeed cFeed w w1 s Hrun)
        as (vs & w' & Hv & _ & _ & _ & Hreq' & _).
      rewrite (GET_miss localeCompare now nowE nowC eFeed cFeed w vs w' Hstale Hv).
      simpl. by rewrite Hreq', Hreq, <- app_assoc.
    + intros e He Hage.
      pose proof (fetchActiveEruptions_hit nowE eFeed w e
                    (eruptionCache_fresh_young _ _ _ He Hage)) as Hrun.
      destruct (fetchVolcanoData_after nowE eFeed cFeed w w _ Hrun)
        as (vs & w' & Hv & _ & _ & _ & Hreq' & _).
      rewrite (GET_miss localeCompare now nowE nowC eFeed cFeed w vs w' Hstale Hv).
      done.
Qed.
End AggregationRuns.

(** Fetched at instant 0 from a delivered catalog; asked again five hours
    later while both services are down. *)
Lemma GET_repeats_within_ttl_witness :
  ∃ response w1,
    GET codeUnitCompare 0 1 2 (eruptionsOf []) (catalogOf 200 [sampleFeature 263250 "Merapi"])
        initialWorld = (inr response, w1)
    ∧ GET codeUnitCompare 18000000 18000001 18000002 Rejected Rejected w1
      = (inr response, w1)
    ∧ VolcanoApiResponse.lastUpdated (NextResponse.body response) = 0.
Proof.
  apply (GET_repeats_within_ttl codeUnitCompare 0 1 2 18000000 18000001 18000002
           (eruptionsOf []) Rejected
           (catalogOf 200 [sampleFeature 263250 "Merapi"]) Rejected initialWorld).
  - left. reflexivity.
  - vm_compute. reflexivity.
Defined.

(** Both caches empty, then the eruption cache one minute old. *)
Lemma GET_requests_witness :
  let young := {| EruptionCache.eruptions := Map.empty;
                  EruptionCache.timestamp := 0 |} in
  let w := {| eruptionCache := Some young; cachedData := None;
              activeEruptions := Map.empty; requests := [] |} in
  requests (GET codeUnitCompare 0 0 0 Rejected Rejected initialWorld).2
    = [GVP_ERUPTIONS_URL; GVP_GEOJSON_URL]
  ∧ requests (GET codeUnitCompare 60000 60000 60000 Rejected Rejected w).2
    = [GVP_GEOJSON_URL].
Proof.
  intros young w. split.
  - apply (proj2 (GET_requests codeUnitCompare 0 0 0 Rejected Rejected initialWorld));
      left; reflexivity.
  - apply (proj2 (proj2 (GET_requests codeUnitCompare 60000 60000 60000
                           Rejected Rejected w) (or_introl eq_refl)) young);
      [reflexivity|]. vm_compute. reflexivity.
Defined.

Section AggregationProperties.
Variable localeCompare : string → string → Z.

(** X11. When both feeds are delivered and the eruption cache holds
    nothing fresh, a volcano of the returned list has status erupting
    exactly when the eruption feed has a record flagged "True" whose number
    prints as the id of the volcano; the watchlists never make a volcano
    erupting nor keep it from being so. *)
Theorem fetchVolcanoData_erupting_iff (nowE eStatus cStatus : Z)
    (records : list GVPEruption.t) (features : list GVPFeature.t) (w : World) :
  eruptionCacheStale nowE w →
  ∃ volcanoes w',
    fetchVolcanoData localeCompare nowE (eruptionsDelivered eStatus records)
      (catalogOf cStatus features) w = (inr volcanoes, w')
    ∧ ∀ v, v ∈ volcanoes →
           (Volcano.status v = erupting
            ↔ ∃ r, r ∈ records ∧ GVPEruption.ContinuingEruption r = "True"
                   ∧ String_of (GVPEruption.VolcanoNumber r) = Volcano.id v).
Proof.
  intros Hstale.
  destruct (fetchActiveEruptions_delivered nowE eStatus records w Hstale)
    as (s & w1 & Hrun & Hget & _).
  destruct (fetchVolcanoData_after localeCompare nowE _
              (catalogOf cStatus features) w w1 s Hrun)
    as (volcanoes & w' & Hv & _ & _ & _ & _ & _ & Hok).
  destruct (Hok cStatus features eq_refl) as (vs & Hvs & ->).
  eexists _, _. split; [exact Hv|]. intros v Hin.
  rewrite Array_sort_Permutation in Hin.
  pose proof (Array_map_Forall
                (λ v, Volcano.status v = determineStatus s (Volcano.id v)) s _
                (λ f v _ H, parseGeoJSONFeature_status s f v H) vs Hvs) as Hall.
  rewrite Forall_forall in Hall. rewrite (Hall v Hin).
  rewrite determineStatus_erupting, <- firstContinuing_is_Some.
  unfold Map.has. rewrite Hget.
  destruct (firstContinuing (Volcano.id v) records); simpl;
    [split; [by eexists | done] | split; [done | by intros [? ?]]].
Qed.

(** X12. Every record of a delivered catalog has a non-empty name,
    country, region and type, never has the string "0" as last eruption
    year, and has a description exactly when it has a tectonic setting. *)
Theorem fetchVolcanoData_fields (nowE status : Z)
    (eFeed : FetchOutcome GVPEruptionsResponse.t)
    (features : list GVPFeature.t) (w : World) :
  ∃ volcanoes w',
    fetchVolcanoData localeCompare nowE eFeed (catalogOf status features) w
      = (inr volcanoes, w')
    ∧ ∀ v, v ∈ volcanoes →
           Volcano.name v ≠ "" ∧ Volcano.country v ≠ "" ∧ Volcano.region v ≠ ""
           ∧ Volcano.type v ≠ ""
           ∧ Volcano.lastEruption v ≠ Some "0"
           ∧ (is_Some (Volcano.description v)
              ↔ is_Some (Volcano.tectonicSetting v)).
Proof.
  destruct (fetchActiveEruptions_total nowE eFeed w) as (s & w1 & Hrun & _).
  destruct (fetchVolcanoData_after localeCompare nowE eFeed
              (catalogOf status features) w w1 s Hrun)
    as (volcanoes & w' & Hv & _ & _ & _ & _ & _ & Hok).
  destruct (Hok status features eq_refl) as (vs & Hvs & ->).
  eexists _, _. split; [exact Hv|]. intros v Hin.
  rewrite Array_sort_Permutation in Hin.
  assert (Forall
            (λ v, Volcano.name v ≠ "" ∧ Volcano.country v ≠ ""
                  ∧ Volcano.region v ≠ "" ∧ Volcano.type v ≠ ""
                  ∧ Volcano.lastEruption v ≠ Some "0"
                  ∧ (is_Some (Volcano.description v)
                     ↔ is_Some (Volcano.tectonicSetting v))) vs) as Hall.
  { eapply Array_map_Forall; [|exact Hvs].
    intros f v' [_ Hf]%list_elem_of_In%filter_In Hparse.
    by eapply parseGeoJSONFeature_fields. }
  rewrite Forall_forall in Hall. by apply Hall.
Qed.

(** X13. When a [GET] misses, the eruption feed is delivered and the
    catalog request fails, the eruption side is refreshed all the same:
    the eruption cache and the route's eruption map hold the snapshot of
    the delivered feed, stamped with the instant of the eruption fetch,
    while the response is the fallback list. *)
Theorem GET_catalog_failure_keeps_eruptions (now nowE nowC eStatus : Z)
    (records : list GVPEruption.t)
    (cFeed : FetchOutcome GVPGeoJSON.t) (w : World) :
  catalogCacheStale now w →
  eruptionCacheStale nowE w →
  catalogFeedFails cFeed = true →
  ∃ snapshot response w',
    GET localeCompare now nowE nowC (eruptionsDelivered eStatus records) cFeed w
      = (inr response, w')
    ∧ VolcanoApiResponse.volcanoes (NextResponse.body response)
      = getFallbackVolcanoData
    ∧ eruptionCache w' = Some {| EruptionCache.eruptions := snapshot;
                                 EruptionCache.timestamp := nowE |}
    ∧ activeEruptions w' = snapshot
    ∧ (∀ id, Map.get snapshot id = toActiveEruption <$> firstContinuing id records).
Proof.
  intros Hstale%catalogCacheStale_fresh He Hfail.
  destruct (fetchActiveEruptions_delivered nowE eStatus records w He)
    as (s & w1 & Hrun & Hget & Hcache & _).
  destruct (fetchVolcanoData_after localeCompare nowE _ cFeed w w1 s Hrun)
    as (volcanoes & w' & Hv & Hec & _ & Hae & _ & Hfb & _).
  rewrite (Hfb Hfail) in Hv.
  exists s. eexists _, _. split; [by eapply GET_miss|]. simpl.
  split; [done|]. by rewrite Hec, Hcache.
Qed.

(** X14. When a [GET] misses and the delivered catalog retains no feature
    (none delivered, or each lacking a required field), the response is
    not the fallback: it lists no volcano, with [totalCount] 0, and the
    empty list is what the cache holds from then on. *)
Theorem GET_empty_catalog (now nowE nowC status : Z)
    (eFeed : FetchOutcome GVPEruptionsResponse.t)
    (features : list GVPFeature.t) (w : World) :
  catalogCacheStale now w →
  Forall missingRequired features →
  ∃ w',
    GET localeCompare now nowE nowC eFeed (catalogOf status features) w
      = (inr (NextResponse.mk 200
                {| VolcanoApiResponse.volcanoes := [];
                   VolcanoApiResponse.lastUpdated := now;
                   VolcanoApiResponse.totalCount := 0 |}),
         w')
    ∧ cachedData w' = Some {| CachedData.volcanoes := [];
                              CachedData.timestamp := now |}.
Proof.
  intros Hstale%catalogCacheStale_fresh Hall.
  assert (List.filter hasRequiredFields features = []) as Hnone.
  { induction Hall as [|f l Hf _ IH]; simpl; [done|].
    by rewrite (hasRequiredFields_missing f Hf). }
  destruct (fetchActiveEruptions_total nowE eFeed w) as (s & w1 & Hrun & _).
  destruct (fetchVolcanoData_after localeCompare nowE eFeed
              (catalogOf status features) w w1 s Hrun)
    as (volcanoes & w' & Hv & _ & _ & _ & _ & _ & Hok).
  destruct (Hok status features eq_refl) as (vs & Hvs & ->).
  rewrite Hnone in Hvs. injection Hvs as <-.
  eexists. split; [by eapply GET_miss|]. done.
Qed.

(** X15. Clearing the eruption cache leaves the volcano list as it is
    served: while the catalog entry is younger than six hours, a [GET]
    that follows [POST] sends that entry and makes no request. *)
Theorem POST_then_GET_serves_cache (nowPost now nowE nowC : Z)
    (eFeed : FetchOutcome GVPEruptionsResponse.t)
    (cFeed : FetchOutcome GVPGeoJSON.t) (c : CachedData.t) (w : World) :
  cachedData w = Some c →
  now - CachedData.timestamp c < CACHE_DURATION →
  GET localeCompare now nowE nowC eFeed cFeed (POST nowPost w).2
  = (inr (NextResponse.mk 200
            {| VolcanoApiResponse.volcanoes := CachedData.volcanoes c;
               VolcanoApiResponse.lastUpdated := CachedData.timestamp c;
               VolcanoApiResponse.totalCount :=
                 Z.of_nat (length (CachedData.volcanoes c)) |}),
     (POST nowPost w).2)
  ∧ requests (POST nowPost w).2 = requests w.
Proof.
  intros Hc Hage. split; [|done].
  apply GET_hit. by apply cachedData_fresh_young.
Qed.
End AggregationProperties.

(** Merapi, on the warning watchlist, is in the feed; Kilauea is not. *)
Lemma fetchVolcanoData_erupting_iff_witness :
  let records := [sampleEruption 263250 "Merapi"] in
  let features := [sampleFeature 300150 "Kilauea"; sampleFeature 263250 "Merapi"] in
  ∃ volcanoes w',
    fetchVolcanoData codeUnitCompare 0 (eruptionsDelivered 200 records)
      (catalogOf 200 features) initialWorld = (inr volcanoes, w')
    ∧ ∀ v, v ∈ volcanoes →
           (Volcano.status v = erupting
            ↔ ∃ r, r ∈ records ∧ GVPEruption.ContinuingEruption r = "True"
                   ∧ String_of (GVPEruption.VolcanoNumber r) = Volcano.id v).
Proof.
  intros records features.
  apply (fetchVolcanoData_erupting_iff codeUnitCompare 0 200 200 records features
           initialWorld).
  left. reflexivity.
Defined.

Example fetchVolcanoData_erupting_run :
  (λ r, match r.1 with
        | inr volcanoes => (λ v, (Volcano.id v, Volcano.status v)) <$> volcanoes
        | inl _ => []
        end)
    (fetchVolcanoData codeUnitCompare 0
       (eruptionsDelivered 200 [sampleEruption 263250 "Merapi"])
       (catalogOf 200 [sampleFeature 300150 "Kilauea"; sampleFeature 263250 "Merapi"])
       initialWorld)
  = [("263250", erupting); ("300150", normal)].
Proof. vm_compute. reflexivity. Qed.

(** The eruption feed answers, the catalog service returns a 503. *)
Lemma GET_catalog_failure_keeps_eruptions_witness :
  ∃ snapshot response w',
    GET codeUnitCompare 10 11 12
        (eruptionsDelivered 200 [sampleEruption 300150 "Kilauea"])
        (Responded false 503 NotJson) initialWorld
      = (inr response, w')
    ∧ VolcanoApiResponse.volcanoes (NextResponse.body response)
      = getFallbackVolcanoData
    ∧ eruptionCache w' = Some {| EruptionCache.eruptions := snapshot;
                                 EruptionCache.timestamp := 11 |}
    ∧ activeEruptions w' = snapshot
    ∧ (∀ id, Map.get snapshot id
             = toActiveEruption
                 <$> firstContinuing id [sampleEruption 300150 "Kilauea"]).
Proof.
  apply (GET_catalog_failure_keeps_eruptions codeUnitCompare 10 11 12 200
           [sampleEruption 300150 "Kilauea"] (Responded false 503 NotJson)
           initialWorld).
  - left. reflexivity.
  - left. reflexivity.
  - reflexivity.
Defined.

(** A catalog whose only feature has no geometry. *)
Lemma GET_empty_catalog_witness :
  ∃ w',
    GET codeUnitCompare 10 11 12 Rejected (catalogOf 200 [sampleFeatureNoGeometry])
        initialWorld
      = (inr (NextResponse.mk 200
                {| VolcanoApiResponse.volcanoes := [];
                   VolcanoApiResponse.lastUpdated := 10;
                   VolcanoApiResponse.totalCount := 0 |}),
         w')
    ∧ cachedData w' = Some {| CachedData.volcanoes := [];
                              CachedData.timestamp := 10 |}.
Proof.
  apply (GET_empty_catalog codeUnitCompare 10 11 12 200 Rejected
           [sampleFeatureNoGeometry] initialWorld).
  - left. reflexivity.
  - constructor; [left; reflexivity | constructor].
Defined.

(** The catalog cached at instant 0, a refresh and a read one hour later. *)
Lemma POST_then_GET_serves_cache_witness :
  ∃ c, cachedData sampleCachedWorld = Some c
       ∧ GET codeUnitCompare 3600000 3600000 3600000 Rejected Rejected
             (POST 3599000 sampleCachedWorld).2
         = (inr (NextResponse.mk 200
                   {| VolcanoApiResponse.volcanoes := CachedData.volcanoes c;
                      VolcanoApiResponse.lastUpdated := 0;
                      VolcanoApiResponse.totalCount := 1 |}),
            (POST 3599000 sampleCachedWorld).2).
Proof.
  eexists. split; [reflexivity|].
  apply (POST_then_GET_serves_cache codeUnitCompare 3599000 3600000 3600000
           3600000 Rejected Rejected _ sampleCachedWorld eq_refl).
  vm_compute. reflexivity.
Defined.

(* ===================================================================== *)
(** ** Further properties: status counts *)
(* ===================================================================== *)

Lemma statusName_inj (s s' : VolcanoStatus) : statusName s = statusName s' → s = s'.
Proof. by destruct s, s'. Qed.

(** The fold, from any accumulator: each count grows by the number of
    volcanoes of that status. *)
Lemma statusCounts_fold (volcanoes : list Volcano.t) (s : VolcanoStatus) :
  ∀ acc : gmap string Z,
    default 0
      (foldl
         (λ acc v,
            <[statusName (Volcano.status v) :=
                default 0 (acc !! statusName (Volcano.status v)) + 1]> acc)
         acc volcanoes !! statusName s)
    = default 0 (acc !! statusName s) + Z.of_nat (withStatus s volcanoes).
Proof.
  unfold withStatus.
  induction volcanoes as [|v volcanoes IH]; intros acc; simpl; [lia|].
  rewrite IH. case_bool_decide as Hs.
  - rewrite Hs, lookup_insert_eq. simpl. lia.
  - rewrite lookup_insert_ne; [done|]. intros ?%statusName_inj. done.
Qed.

Lemma withStatus_total (volcanoes : list Volcano.t) :
  (withStatus erupting volcanoes + withStatus warning volcanoes
   + withStatus watch volcanoes + withStatus advisory volcanoes
   + withStatus normal volcanoes)%nat = length volcanoes.
Proof.
  unfold withStatus. induction volcanoes as [|v volcanoes IH]; simpl; [done|].
  destruct (Volcano.status v); repeat case_bool_decide; try done; simpl; lia.
Qed.

(** X16. The count shown beside a status is the number of volcanoes of
    the list that have that status (0 for a status no volcano has), and
    the five counts add up to the length of the list. *)
Theorem statusCounts_add_up (volcanoes : list Volcano.t) :
  (∀ s, shownCount volcanoes s = Z.of_nat (withStatus s volcanoes))
  ∧ shownCount volcanoes erupting + shownCount volcanoes warning
    + shownCount volcanoes watch + shownCount volcanoes advisory
    + shownCount volcanoes normal
    = Z.of_nat (length volcanoes).
Proof.
  assert (∀ s, shownCount volcanoes s = Z.of_nat (withStatus s volcanoes)) as Hs.
  { intros s. unfold shownCount, statusCounts. rewrite statusCounts_fold.
    by rewrite lookup_empty. }
  split; [exact Hs|]. rewrite !Hs, <- withStatus_total. lia.
Qed.

Example statusCounts_fallback :
  shownCount getFallbackVolcanoData <$> statusOrder = [5; 0; 0; 0; 0].
Proof. vm_compute. reflexivity. Qed.

(* ===================================================================== *)
(** ** Further properties: the page and the hook *)
(* ===================================================================== *)

Lemma Array_at_in_range {A} (l : list A) (i : Z) :
  0 ≤ i < Z.of_nat (length l) → ∃ x, Array_at l i = Some x ∧ x ∈ l.
Proof.
  intros [Hlo Hhi]. unfold Array_at.
  destruct (Z.ltb_spec i 0) as [|_]; [lia|].
  destruct (lookup_lt_is_Some_2 l (Z.to_nat i)) as [x Hx]; [lia|].
  exists x. split; [done|]. by eapply list_elem_of_lookup_2.
Qed.

Lemma eruptingVolcanoes_elem (volcanoes : list Volcano.t) (v : Volcano.t) :
  v ∈ eruptingVolcanoes volcanoes ↔ v ∈ volcanoes ∧ Volcano.status v = erupting.
Proof.
  unfold eruptingVolcanoes. rewrite list_elem_of_In, filter_In, <- list_elem_of_In.
  by rewrite bool_decide_eq_true.
Qed.

(** Stepping forward then back, or back then forward, inside [0, n). *)
Lemma rem_next_prev (i n : Z) :
  0 ≤ i < n →
  Z.rem (Z.rem (i + 1) n - 1 + n) n = i ∧ Z.rem (Z.rem (i - 1 + n) n + 1) n = i.
Proof.
  intros H.
  assert (Z.rem (i + 1) n = if i + 1 =? n then 0 else i + 1) as ->.
  { destruct (Z.eqb_spec (i + 1) n) as [->|];
      [apply Z.rem_same; lia | apply Z.rem_small; lia]. }
  assert (Z.rem (i - 1 + n) n = if i =? 0 then n - 1 else i - 1) as ->.
  { destruct (Z.eqb_spec i 0) as [->|].
    - replace (0 - 1 + n) with (n - 1) by lia. apply Z.rem_small; lia.
    - replace (i - 1 + n) with (i - 1 + 1 * n) by lia.
      rewrite Z.rem_add by nia. apply Z.rem_small; lia. }
  split.
  - destruct (Z.eqb_spec (i + 1) n).
    + replace (0 - 1 + n) with (n - 1) by lia. rewrite Z.rem_small by lia. lia.
    + replace (i + 1 - 1 + n) with (i + 1 * n) by lia.
      rewrite Z.rem_add by nia. apply Z.rem_small; lia.
  - destruct (Z.eqb_spec i 0) as [->|].
    + replace (n - 1 + 1) with n by lia. apply Z.rem_same; lia.
    + replace (i - 1 + 1) with i by lia. apply Z.rem_small; lia.
Qed.

(** X17. With at least one erupting volcano and a non-negative index, the
    next and previous handlers put the index inside the list of erupting
    volcanoes and select a volcano of the catalog that is erupting; the
    index wraps around at both ends, and from an index inside the list
    previous undoes next and next undoes previous. *)
Theorem erupting_navigation_wraps (volcanoes : list Volcano.t) (st : Navigation) :
  let active := eruptingVolcanoes volcanoes in
  let n := Z.of_nat (length active) in
  active ≠ [] →
  0 ≤ eruptingIndex st →
  (∀ st', st' = handleNextErupting active st ∨ st' = handlePrevErupting active st →
          0 ≤ eruptingIndex st' < n
          ∧ ∃ v, selectedVolcano st' = Some v ∧ v ∈ volcanoes
                 ∧ Volcano.status v = erupting)
  ∧ (eruptingIndex st = n - 1 → eruptingIndex (handleNextErupting active st) = 0)
  ∧ (eruptingIndex st = 0 → eruptingIndex (handlePrevErupting active st) = n - 1)
  ∧ (eruptingIndex st < n →
     eruptingIndex (handlePrevErupting active (handleNextErupting active st))
     = eruptingIndex st
     ∧ eruptingIndex (handleNextErupting active (handlePrevErupting active st))
       = eruptingIndex st).
Proof.
  intros active n Hne Hidx.
  assert (0 < n) as Hn.
  { subst n. destruct active; [done|]. simpl. lia. }
  assert (∀ st0, handleNextErupting active st0
                 = {| eruptingIndex := Z.rem (eruptingIndex st0 + 1) n;
                      selectedVolcano :=
                        Array_at active (Z.rem (eruptingIndex st0 + 1) n) |})
    as Hnext.
  { intros st0. unfold handleNextErupting. fold n.
    by destruct (Z.eqb_spec n 0); [lia|]. }
  assert (∀ st0, handlePrevErupting active st0
                 = {| eruptingIndex := Z.rem (eruptingIndex st0 - 1 + n) n;
                      selectedVolcano :=
                        Array_at active (Z.rem (eruptingIndex st0 - 1 + n) n) |})
    as Hprev.
  { intros st0. unfold handlePrevErupting. fold n.
    by destruct (Z.eqb_spec n 0); [lia|]. }
  assert (∀ i, 0 ≤ i → 0 ≤ Z.rem i n < n) as Hbound.
  { intros i Hi. by apply Z.rem_bound_pos. }
  split; [|split; [|split]].
  - intros st' [->| ->]; rewrite ?Hnext, ?Hprev; cbn [eruptingIndex selectedVolcano].
    + pose proof (Hbound (eruptingIndex st + 1) ltac:(lia)) as Hb.
      split; [exact Hb|].
      destruct (Array_at_in_range active _ Hb) as (v & Hv & Hin).
      apply eruptingVolcanoes_elem in Hin as [Hin Hs]. by exists v.
    + pose proof (Hbound (eruptingIndex st - 1 + n) ltac:(lia)) as Hb.
      split; [exact Hb|].
      destruct (Array_at_in_range active _ Hb) as (v & Hv & Hin).
      apply eruptingVolcanoes_elem in Hin as [Hin Hs]. by exists v.
  - intros Hlast. rewrite Hnext. cbn [eruptingIndex].
    rewrite Hlast. replace (n - 1 + 1) with n by lia. apply Z.rem_same. lia.
  - intros Hfirst. rewrite Hprev. cbn [eruptingIndex].
    rewrite Hfirst. replace (0 - 1 + n) with (n - 1) by lia.
    apply Z.rem_small. lia.
  - intros Hin. rewrite !Hnext, !Hprev. cbn [eruptingIndex].
    apply rem_next_prev. lia.
Qed.

(** The five fallback volcanoes, all erupting, from the last one. *)
Lemma erupting_navigation_wraps_witness :
  let active := eruptingVolcanoes getFallbackVolcanoData in
  let st := {| eruptingIndex := 4; selectedVolcano := None |} in
  eruptingIndex (handleNextErupting active st) = 0
  ∧ eruptingIndex (handlePrevErupting active (handleNextErupting active st)) = 4.
Proof.
  intros active st.
  destruct (erupting_navigation_wraps getFallbackVolcanoData st)
    as (_ & Hlast & _ & Hround); [discriminate | vm_compute; discriminate |].
  split; [apply Hlast; reflexivity | apply Hround; reflexivity].
Defined.

(** X18. Toggling a status twice gives back the set of visible statuses;
    one toggle flips the visibility of that status and of no other. *)
Theorem handleToggleStatus_twice (status : string) (visible : gset string) :
  handleToggleStatus status (handleToggleStatus status visible) = visible
  ∧ (status ∈ handleToggleStatus status visible ↔ status ∉ visible)
  ∧ (∀ other, other ≠ status →
       (other ∈ handleToggleStatus status visible ↔ other ∈ visible)).
Proof.
  unfold handleToggleStatus. destruct (decide (status ∈ visible)) as [Hin|Hnin].
  - rewrite (bool_decide_eq_true_2 _ Hin).
    assert (status ∉ visible ∖ {[status]}) as Hout.
    { rewrite elem_of_difference, elem_of_singleton. by intros [_ ?]. }
    rewrite (bool_decide_eq_false_2 _ Hout). split; [|split].
    + apply set_eq. intros x.
      rewrite elem_of_union, elem_of_difference, elem_of_singleton.
      destruct (decide (x = status)) as [->|]; intuition congruence.
    + split; [done | by intros []].
    + intros other Hne. rewrite elem_of_difference, elem_of_singleton.
      intuition congruence.
  - rewrite (bool_decide_eq_false_2 _ Hnin).
    assert (status ∈ visible ∪ {[status]}) as Hnow.
    { rewrite elem_of_union, elem_of_singleton. by right. }
    rewrite (bool_decide_eq_true_2 _ Hnow). split; [|split].
    + apply set_eq. intros x.
      rewrite elem_of_difference, elem_of_union, elem_of_singleton.
      destruct (decide (x = status)) as [->|]; intuition congruence.
    + done.
    + intros other Hne. rewrite elem_of_union, elem_of_singleton. intuition congruence.
Qed.

(** X19. When a run of [fetchVolcanoes] settles, [isLoading] is false. A
    delivered response replaces the list and the date and clears any
    earlier error. A failed request (network error, non-ok status, body
    that is not JSON) keeps the list and the date shown before and sets
    an error; for a non-ok status the body sent along is not used and
    the error names the status. *)
Theorem fetchVolcanoes_settles (hostMessage : Exn → string)
    (outcome : FetchOutcome VolcanoApiResponse.t) (st : Hook.t) :
  let st' := Hook.fetchVolcanoes hostMessage outcome st in
  Hook.isLoading st' = false
  ∧ (∀ status data, outcome = Responded true status (Json data) →
       Hook.volcanoes st' = VolcanoApiResponse.volcanoes data
       ∧ Hook.lastUpdated st' = Some (VolcanoApiResponse.lastUpdated data)
       ∧ Hook.error st' = None)
  ∧ ((outcome = Rejected
      ∨ (∃ status body, outcome = Responded false status body)
      ∨ (∃ status, outcome = Responded true status NotJson)) →
     Hook.volcanoes st' = Hook.volcanoes st
     ∧ Hook.lastUpdated st' = Hook.lastUpdated st
     ∧ is_Some (Hook.error st'))
  ∧ (∀ status body, outcome = Responded false status body →
       Hook.error st' = Some ("Failed to fetch: " +:+ String_of status)).
Proof.
  intros st'. subst st'. unfold Hook.fetchVolcanoes. split; [done|].
  split; [by intros status data ->|]. split.
  - intros [->|[(status & body & ->)|(status & ->)]]; simpl; eauto.
  - by intros status body ->.
Qed.

(** A list on screen, then a 500 that carries the fallback list. *)
Example fetchVolcanoes_discards_500_body :
  let shown := {| Hook.volcanoes := [];
                  Hook.isLoading := false; Hook.error := None;
                  Hook.lastUpdated := Some 0 |} in
  Hook.fetchVolcanoes (λ _, "host error")
    (Responded false 500
       (Json {| VolcanoApiResponse.volcanoes := getFallbackVolcanoData;
                VolcanoApiResponse.lastUpdated := 7;
                VolcanoApiResponse.totalCount := 5 |}))
    shown
  = {| Hook.volcanoes := []; Hook.isLoading := false;
       Hook.error := Some "Failed to fetch: 500";
       Hook.lastUpdated := Some 0 |}.
Proof. vm_compute. reflexivity. Qed.

(** X20. When the eruption request fails and the catalog is delivered,
    the statuses are derived from the last snapshot the eruption cache
    holds, whatever its age: a volcano is erupting exactly when its id is
    a key of that snapshot; with no snapshot at all, no volcano of the
    list is erupting. *)
Theorem fetchVolcanoData_statuses_when_feed_down
    (localeCompare : string → string → Z) (nowE cStatus : Z)
    (eFeed : FetchOutcome GVPEruptionsResponse.t)
    (features : list GVPFeature.t) (w : World) :
  eruptionsFeedFails eFeed = true →
  ∃ volcanoes w',
    fetchVolcanoData localeCompare nowE eFeed (catalogOf cStatus features) w
      = (inr volcanoes, w')
    ∧ (∀ v, v ∈ volcanoes →
            (Volcano.status v = erupting
             ↔ Volcano.id v ∈ Map.keys (lastKnownEruptions (eruptionCache w))))
    ∧ (eruptionCache w = None →
       ∀ v, v ∈ volcanoes → Volcano.status v ≠ erupting).
Proof.
  intros Hfail.
  destruct (fetchActiveEruptions_last_known nowE eFeed w)
    as (s & w1 & Hrun & Hs).
  specialize (Hs Hfail). subst s.
  destruct (fetchVolcanoData_after localeCompare nowE eFeed
              (catalogOf cStatus features) w w1 _ Hrun)
    as (volcanoes & w' & Hv & _ & _ & _ & _ & _ & Hok).
  destruct (Hok cStatus features eq_refl) as (vs & Hvs & ->).
  pose proof (Array_map_Forall
                (λ v, Volcano.status v
                      = determineStatus (lastKnownEruptions (eruptionCache w))
                          (Volcano.id v)) _ _
                (λ f v _ H, parseGeoJSONFeature_status _ f v H) vs Hvs) as Hall.
  rewrite Forall_forall in Hall.
  assert (∀ v, v ∈ Array_sort (compareVolcanoes localeCompare) vs →
               (Volcano.status v = erupting
                ↔ Volcano.id v ∈ Map.keys (lastKnownEruptions (eruptionCache w))))
    as Hiff.
  { intros v Hin. rewrite Array_sort_Permutation in Hin.
    by rewrite (Hall v Hin), determineStatus_erupting, Map_has_keys. }
  eexists _, _. split; [exact Hv|]. split; [exact Hiff|].
  intros Hnone v Hin Hst. apply (Hiff v Hin) in Hst.
  rewrite Hnone in Hst. by apply elem_of_nil in Hst.
Qed.

(** Kilauea in a two-hour-old snapshot, then no snapshot at all. *)
Lemma fetchVolcanoData_statuses_when_feed_down_witness :
  let old := {| EruptionCache.eruptions :=
                  [("300150", toActiveEruption (sampleEruption 300150 "Kilauea"))];
                EruptionCache.timestamp := 0 |} in
  let w := {| eruptionCache := Some old; cachedData := None;
              activeEruptions := Map.empty; requests := [] |} in
  let features := [sampleFeature 300150 "Kilauea"] in
  (∃ volcanoes w',
     fetchVolcanoData codeUnitCompare 7200000 Rejected (catalogOf 200 features) w
       = (inr volcanoes, w')
     ∧ ∀ v, v ∈ volcanoes →
            (Volcano.status v = erupting ↔ Volcano.id v ∈ ["300150"]))
  ∧ (∃ volcanoes w',
       fetchVolcanoData codeUnitCompare 7200000 Rejected (catalogOf 200 features)
         initialWorld = (inr volcanoes, w')
       ∧ ∀ v, v ∈ volcanoes → Volcano.status v ≠ erupting).
Proof.
  intros old w features. split.
  - destruct (fetchVolcanoData_statuses_when_feed_down codeUnitCompare 7200000 200
                Rejected features w eq_refl) as (vs & w' & Hrun & Hiff & _).
    exists vs, w'. split; [exact Hrun | exact Hiff].
  - destruct (fetchVolcanoData_statuses_when_feed_down codeUnitCompare 7200000 200
                Rejected features initialWorld eq_refl)
      as (vs & w' & Hrun & _ & Hnone).
    exists vs, w'. split; [exact Hrun | exact (Hnone eq_refl)].
Defined.
